(** * Location lifecycle coordinator: object store, geocoder, coordinator

    A shallow embedding of the NestJS services [MinioService],
    [MapboxService] and [LocationsService], followed by the properties the
    specification states about them.

    Conventions.
    - A JavaScript string is the list of its UTF-16 code units ([list N]).
    - [null]/[undefined] are [None]; a present value is [Some].
    - An [async] method is a computation in the monad [M]: it takes the
      state of the outside world and returns either a value or a thrown
      exception, together with the new state.  [await] is [bind].
    - The outside world (object store, database, geocoding upstream) is a
      recording double: every call is appended to a log, and whether a call
      fails is decided by an oracle of the environment.
    - Logger and console output decides nothing and is left out. *)

From Stdlib Require Import ZArith NArith Ascii String.
From stdpp Require Import gmap list strings.

Local Open Scope N_scope.

(** ** JavaScript strings *)

Module JS.

(** UTF-8 bytes to UTF-16 code units (basic multilingual plane): the
    messages of the services contain accented letters. *)
Fixpoint utf16_of_utf8 (bs : list N) : list N :=
  match bs with
  | [] => []
  | b1 :: rest =>
      if b1 <? 128 then b1 :: utf16_of_utf8 rest
      else match rest with
           | [] => [b1]
           | b2 :: rest2 =>
               if b1 <? 224
               then (b1 - 192) * 64 + (b2 - 128) :: utf16_of_utf8 rest2
               else match rest2 with
                    | [] => [b1; b2]
                    | b3 :: rest3 =>
                        (b1 - 224) * 4096 + (b2 - 128) * 64 + (b3 - 128)
                          :: utf16_of_utf8 rest3
                    end
           end
  end.

(** A string literal of the source, as code units. *)
Definition lit (s : string) : list N :=
  utf16_of_utf8 (N_of_ascii <$> list_ascii_of_string s).

(** Truthiness of a string: every string but [''] is truthy. *)
Definition truthy (s : list N) : bool :=
  match s with [] => false | _ :: _ => true end.

(** Truthiness of [string | null | undefined]. *)
Definition truthy_opt (o : option (list N)) : bool :=
  match o with Some s => truthy s | None => false end.

(** A template literal prints [undefined] for an absent value. *)
Definition template (o : option (list N)) : list N :=
  match o with Some s => s | None => lit "undefined" end.

(** [s.startsWith(p)] *)
Fixpoint startsWith (s p : list N) : bool :=
  match p, s with
  | [], _ => true
  | _ :: _, [] => false
  | a :: p', b :: s' => (a =? b) && startsWith s' p'
  end.

(** [s.includes(sub)] *)
Fixpoint includes (s sub : list N) : bool :=
  match s with
  | [] => startsWith [] sub
  | _ :: s' => startsWith s sub || includes s' sub
  end.

(** The text before and after the first occurrence of [sep] in [s]. *)
Fixpoint cut (s sep : list N) : option (list N * list N) :=
  match s with
  | [] => if startsWith [] sep then Some ([], []) else None
  | c :: s' =>
      if startsWith s sep then Some ([], drop (length sep) s)
      else match cut s' sep with
           | Some (b, a) => Some (c :: b, a)
           | None => None
           end
  end.

Fixpoint split_fuel (fuel : nat) (s sep : list N) : list (list N) :=
  match fuel with
  | O => [s]
  | S n =>
      match cut s sep with
      | None => [s]
      | Some (b, a) => b :: split_fuel n a sep
      end
  end.

(** [s.split(sep)] for a string separator.  Every cut consumes the
    separator, so [length s] rounds are enough ([split_unfold]); the empty
    separator splits into code units. *)
Definition split (s sep : list N) : list (list N) :=
  match sep with
  | [] => (λ c, [c]) <$> s
  | _ :: _ => split_fuel (S (length s)) s sep
  end.

(** [parts.join(sep)] *)
Fixpoint join (parts : list (list N)) (sep : list N) : list N :=
  match parts with
  | [] => []
  | [x] => x
  | x :: rest => x ++ sep ++ join rest sep
  end.

(** [parts.slice(1)] *)
Definition slice1 {A} (parts : list A) : list A := drop 1 parts.

(** ECMAScript WhiteSpace and LineTerminator code units, the ones
    [String.prototype.trim] strips. *)
Definition is_ws (c : N) : bool :=
  (9 <=? c) && (c <=? 13)
  || (c =? 32) || (c =? 160) || (c =? 5760)
  || (8192 <=? c) && (c <=? 8202)
  || (c =? 8232) || (c =? 8233) || (c =? 8239) || (c =? 8287)
  || (c =? 12288) || (c =? 65279).

Fixpoint trimStart (s : list N) : list N :=
  match s with
  | [] => []
  | c :: s' => if is_ws c then trimStart s' else s
  end.

Fixpoint trimEnd (s : list N) : list N :=
  match s with
  | [] => []
  | c :: s' =>
      match trimEnd s' with
      | [] => if is_ws c then [] else [c]
      | t => c :: t
      end
  end.

(** [s.trim()] *)
Definition trim (s : list N) : list N := trimEnd (trimStart s).

(** [list.includes(x)] on an array of strings. *)
Definition array_includes (l : list (list N)) (x : list N) : bool :=
  bool_decide (x ∈ l).

End JS.

(** ** Exceptions and the monad of asynchronous methods *)

Inductive ExnKind :=
| BadRequestException
| NotFoundException
| InternalServerErrorException
| OtherError        (* an [Error] that is none of the above: driver, SDK *)
| NotAnError.       (* a thrown value that is not an [Error] instance *)

Record Exn := { kind : ExnKind; message : option (list N) }.

Definition http (k : ExnKind) (msg : list N) : Exn :=
  {| kind := k; message := Some msg |}.

Definition instanceof_BadRequestException (e : Exn) : bool :=
  match kind e with BadRequestException => true | _ => false end.

Definition instanceof_Error (e : Exn) : bool :=
  match kind e with NotAnError => false | _ => true end.

Inductive Result (A : Type) :=
| Ok (a : A)
| Throw (e : Exn).
Arguments Ok {A} a.
Arguments Throw {A} e.

#[global] Instance Result_fmap : FMap Result :=
  λ A B f r, match r with Ok a => Ok (f a) | Throw e => Throw e end.

(** A computation over a state [S]; the state survives a throw. *)
Definition M (S A : Type) : Type := S → Result A * S.

Definition ret {S A} (a : A) : M S A := λ s, (Ok a, s).

Definition throw {S A} (e : Exn) : M S A := λ s, (Throw e, s).

Definition bind {S A B} (m : M S A) (k : A → M S B) : M S B :=
  λ s, match m s with
       | (Ok a, s') => k a s'
       | (Throw e, s') => (Throw e, s')
       end.

(** [try { body } catch (error) { handler }] *)
Definition try_catch {S A} (body : M S A) (handler : Exn → M S A) : M S A :=
  λ s, match body s with
       | (Ok a, s') => (Ok a, s')
       | (Throw e, s') => handler e s'
       end.

(** [promise.catch(err => { console.error(..., err); })] *)
Definition catch_and_log {S} (m : M S unit) : M S unit :=
  try_catch m (λ _, ret tt).

(** A synchronous function that may throw, used in a method. *)
Definition of_result {S A} (r : Result A) : M S A := λ s, (r, s).

(** The mutable locals [F] of a method body next to the world [W]:
    reading, assigning, calling a method of a collaborator, and running a
    body from the initial values of its locals. *)
Definition locals {F W} : M (F * W) F := λ s, (Ok (fst s), s).

Definition assign {F W} (f : F → F) : M (F * W) unit :=
  λ s, (Ok tt, (f (fst s), snd s)).

Definition call {F W A} (m : M W A) : M (F * W) A :=
  λ s, let (r, w') := m (snd s) in (r, (fst s, w')).

Definition with_locals {F W A} (init : F) (m : M (F * W) A) : M W A :=
  λ w, let (r, s') := m (init, w) in (r, snd s').

Declare Scope M_scope.
Delimit Scope M_scope with M.
Notation "'let*' x ':=' m 'in' k" := (bind m (λ x, k))
  (at level 10, x name, m at level 100, k at level 200) : M_scope.
Notation "m '>>' k" := (bind m (λ _, k))
  (at level 100, k at level 200, right associativity) : M_scope.
Local Open Scope M_scope.

(** ** Data model *)

(** [enum BucketType { LOCATIONS = 'locations' }] *)
Inductive BucketType := LOCATIONS.

Definition BucketType_value (b : BucketType) : list N :=
  match b with LOCATIONS => JS.lit "locations" end.

(** [Object.values(BucketType)] *)
Definition BucketType_values : list (list N) := [BucketType_value LOCATIONS].

(** [Express.Multer.File]: the fields the services read. *)
Module File.
Record t := {
  originalname : list N;
  mimetype : list N;
  size : Z;
  buffer : list N;
}.
End File.

(** An object of the store with the metadata [uploadFile] attaches (the
    original name travels base64-encoded; it is kept as it is here). *)
Module StoredObject.
Record t := {
  body : list N;
  contentType : list N;
  originalName : list N;
}.
End StoredObject.

(** Modelled from the spec: the Prisma schema that declares the [Location]
    model is not among the sources.  The columns are the identity and the
    ones [create] writes; the timestamps, which no method reads or writes,
    are left out.  Coordinates are JavaScript numbers that the services
    only pass along; they are carried as the integer that encodes the
    double. *)
Module Location.
Record t := {
  id : list N;
  name : list N;
  description : option (list N);
  latitude : Z;
  longitude : Z;
  image : option (list N);
  userId : list N;
}.
End Location.

Module CreateLocationDto.
Record t := {
  name : list N;
  description : option (list N);
  address : list N;
  image : option (list N);
}.
End CreateLocationDto.

(** [UpdateLocationDto] as declared among the sources ([name],
    [description], [address], [image], all optional), with the [keepImage]
    flag that [update] destructures next to [address] and that
    [UpdateLocationWithImageDto] declares as an optional boolean. *)
Module UpdateLocationDto.
Record t := {
  name : option (list N);
  description : option (list N);
  address : option (list N);
  image : option (list N);
  keepImage : option bool;
}.
End UpdateLocationDto.

(** The [data] argument of [prisma.location.create]. *)
Module CreateData.
Record t := {
  name : list N;
  description : option (list N);
  latitude : Z;
  longitude : Z;
  image : option (list N);
  userId : list N;
}.
End CreateData.

(** The [data] argument of [prisma.location.update]: an absent key is
    [None] and leaves the column as it is. *)
Module UpdateData.
Record t := {
  name : option (list N);
  description : option (list N);
  image : option (list N);
  latitude : option Z;
  longitude : option Z;
}.
End UpdateData.

(** The reply of the geocoding upstream. *)
Module Feature.
Record t := {
  center : Z * Z;            (* [longitude, latitude] *)
  place_name : list N;
}.
End Feature.

Module GeocodeResponse.
Record t := { features : option (list Feature.t) }.
End GeocodeResponse.

Module GeocodeResult.
Record t := {
  latitude : Z;
  longitude : Z;
  formattedAddress : option (list N);
}.
End GeocodeResult.

(** ** The outside world *)

(** Calls of the coordinator to its collaborators. *)
Inductive Call :=
| CallGeocode (address : list N)
| CallUpload (file : option File.t) (bucketType : BucketType)
| CallDelete (filePath : list N)
| CallFindUnique (id : list N)
| CallPersistCreate (data : CreateData.t)
| CallPersistUpdate (id : list N) (data : UpdateData.t)
| CallPersistDelete (id : list N).

(** Calls of the collaborators to the systems behind them. *)
Inductive Wire :=
| ForwardGeocode (query : list N)
| RandomUUID
| PutObject (bucketName fileName : list N)
| StatObject (bucketName fileName : list N)
| RemoveObject (bucketName fileName : list N).

Record World := {
  objects : gmap (list N * list N) StoredObject.t;
  rows : gmap (list N) Location.t;
  calls : list Call;
  wire : list Wire;
}.

Definition log_call (c : Call) : M World unit :=
  λ w, (Ok tt, {| objects := objects w; rows := rows w;
                  calls := calls w ++ [c]; wire := wire w |}).

Definition log_wire (c : Wire) : M World unit :=
  λ w, (Ok tt, {| objects := objects w; rows := rows w;
                  calls := calls w; wire := wire w ++ [c] |}).

Definition set_objects (f : gmap (list N * list N) StoredObject.t →
                            gmap (list N * list N) StoredObject.t)
  : M World unit :=
  λ w, (Ok tt, {| objects := f (objects w); rows := rows w;
                  calls := calls w; wire := wire w |}).

Definition set_rows (f : gmap (list N) Location.t → gmap (list N) Location.t)
  : M World unit :=
  λ w, (Ok tt, {| objects := objects w; rows := f (rows w);
                  calls := calls w; wire := wire w |}).

Definition world : M World World := λ w, (Ok w, w).

(** What the services cannot decide: the configuration, the library
    functions, and which calls to an outside system fail.  An oracle sees
    the world, so its answer may change from call to call. *)
Record Env := {
  config : gmap string (list N);
  path_extname : list N → list N;
  crypto_randomUUID : World → list N;
  mapbox_send : World → list N → Result GeocodeResponse.t;
  minio_fault : World → Wire → option Exn;
  prisma_fault : World → Call → option Exn;
  prisma_newId : World → list N;
}.

(** The mutable locals of [LocationsService.create]. *)
Module CreateLocals.
Record t := {
  imageUrl : option (list N);
  uploadedFilePath : option (list N);
}.
End CreateLocals.

(** The mutable locals of [LocationsService.update]; [coordinates] is
    [{}] or [{ latitude, longitude }], and [imageUrl] may be [undefined]. *)
Module UpdateLocals.
Record t := {
  coordinates : option (Z * Z);
  imageUrl : option (list N);
  uploadedFilePath : option (list N);
  oldImagePath : option (list N);
}.
End UpdateLocals.

Section Services.

Variable env : Env.

(** ** The systems behind the collaborators (recording doubles) *)

(** The MinIO client, [crypto.randomUUID] and the Mapbox SDK are
    libraries.  A call to the store is logged, then fails if the oracle
    says so, and otherwise acts on the objects. *)
Definition outside (c : Wire) : M World unit :=
  let* w := world in
  log_wire c >>
  match minio_fault env w c with
  | Some e => throw e
  | None => ret tt
  end.

Definition minioClient_putObject (bucketName fileName : list N)
    (file : File.t) : M World unit :=
  outside (PutObject bucketName fileName) >>
  set_objects (insert (bucketName, fileName)
    {| StoredObject.body := File.buffer file;
       StoredObject.contentType := File.mimetype file;
       StoredObject.originalName := File.originalname file |}).

(** [statObject] throws when the object is missing. *)
Definition minioClient_statObject (bucketName fileName : list N)
  : M World StoredObject.t :=
  outside (StatObject bucketName fileName) >>
  let* w := world in
  match objects w !! (bucketName, fileName) with
  | Some o => ret o
  | None => throw {| kind := OtherError; message := Some (JS.lit "Not Found") |}
  end.

Definition minioClient_removeObject (bucketName fileName : list N)
  : M World unit :=
  outside (RemoveObject bucketName fileName) >>
  set_objects (delete (bucketName, fileName)).

Definition randomUUID : M World (list N) :=
  let* w := world in
  log_wire RandomUUID >>
  ret (crypto_randomUUID env w).

Definition geocodingClient_forwardGeocode (query : list N)
  : M World GeocodeResponse.t :=
  let* w := world in
  log_wire (ForwardGeocode query) >>
  of_result (mapbox_send env w query).

(** Modelled from the spec: [PrismaService] is not among the sources; it is
    the LocationRepository of the spec, "CRUD over persisted Location
    records".  A call is logged, fails if the oracle says so, and otherwise
    acts on the table; the joined [user] of a returned row is left out. *)
Definition prisma_call (c : Call) : M World unit :=
  let* w := world in
  log_call c >>
  match prisma_fault env w c with
  | Some e => throw e
  | None => ret tt
  end.

Definition prisma_location_findUnique (id : list N)
  : M World (option Location.t) :=
  prisma_call (CallFindUnique id) >>
  let* w := world in
  ret (rows w !! id).

Definition prisma_location_create (data : CreateData.t)
  : M World Location.t :=
  prisma_call (CallPersistCreate data) >>
  let* w := world in
  let id := prisma_newId env w in
  match rows w !! id with
  | Some _ =>
      throw {| kind := OtherError;
               message := Some (JS.lit "Unique constraint failed") |}
  | None =>
      let location :=
        {| Location.id := id;
           Location.name := CreateData.name data;
           Location.description := CreateData.description data;
           Location.latitude := CreateData.latitude data;
           Location.longitude := CreateData.longitude data;
           Location.image := CreateData.image data;
           Location.userId := CreateData.userId data |} in
      set_rows (insert id location) >>
      ret location
  end.

(** A key of [data] that is present replaces the column. *)
Definition apply_update (data : UpdateData.t) (l : Location.t)
  : Location.t :=
  {| Location.id := Location.id l;
     Location.name := default (Location.name l) (UpdateData.name data);
     Location.description :=
       match UpdateData.description data with
       | Some d => Some d
       | None => Location.description l
       end;
     Location.latitude :=
       default (Location.latitude l) (UpdateData.latitude data);
     Location.longitude :=
       default (Location.longitude l) (UpdateData.longitude data);
     Location.image :=
       match UpdateData.image data with
       | Some i => Some i
       | None => Location.image l
       end;
     Location.userId := Location.userId l |}.

Definition prisma_location_update (id : list N) (data : UpdateData.t)
  : M World Location.t :=
  prisma_call (CallPersistUpdate id data) >>
  let* w := world in
  match rows w !! id with
  | None =>
      throw {| kind := OtherError;
               message := Some (JS.lit "Record to update not found") |}
  | Some l =>
      let location := apply_update data l in
      set_rows (insert id location) >>
      ret location
  end.

Definition prisma_location_delete (id : list N) : M World unit :=
  prisma_call (CallPersistDelete id) >>
  let* w := world in
  match rows w !! id with
  | None =>
      throw {| kind := OtherError;
               message := Some (JS.lit "Record to delete does not exist") |}
  | Some _ => set_rows (delete id)
  end.

(** ** MinioService *)

(** [validateFile]: size first, then the content type. *)
Definition maxSize : Z := 12 * 1024 * 1024.

Definition allowedTypes : list (list N) :=
  [ JS.lit "image/jpeg"; JS.lit "image/jpg"; JS.lit "image/png";
    JS.lit "image/gif"; JS.lit "image/webp"; JS.lit "image/svg+xml" ].

Definition validateFile (file : File.t) : Result unit :=
  if (File.size file >? maxSize)%Z then
    Throw (http BadRequestException (JS.lit "Arquivo maior que 12MB"))
  else if (File.size file =? 0)%Z then
    Throw (http BadRequestException (JS.lit "Arquivo vazio"))
  else if negb (JS.array_includes allowedTypes (File.mimetype file)) then
    Throw (http BadRequestException
      (JS.lit "Tipo de arquivo não permitido: " ++ File.mimetype file
       ++ JS.lit ". Tipos permitidos: "
       ++ JS.join allowedTypes (JS.lit ", ")))
  else Ok tt.

(** [extractBucketAndFileName]: [{ bucketName, fileName }], both [null]
    when the path is not [bucket/name] with a known bucket. *)
Definition extractBucketAndFileName (filePath : list N)
  : option (list N) * option (list N) :=
  if negb (JS.truthy filePath) then (None, None)
  else
    let filePath := JS.trim filePath in
    let parts := JS.split filePath (JS.lit "/") in
    if (length parts <? 2)%nat then (None, None)
    else
      let bucketName := default [] (parts !! 0%nat) in
      let fileName := JS.join (JS.slice1 parts) (JS.lit "/") in
      let validBuckets := BucketType_values in
      if negb (JS.array_includes validBuckets bucketName)
      then (None, None)
      else (Some bucketName, Some fileName).

Definition uploadFile (file : option File.t) (bucketType : BucketType)
  : M World (list N) :=
  log_call (CallUpload file bucketType) >>
  try_catch
    (match file with
     | None =>
         throw (http BadRequestException (JS.lit "Nenhum arquivo fornecido"))
     | Some file =>
         of_result (validateFile file) >>
         let bucketName := BucketType_value bucketType in
         let fileExtension := path_extname env (File.originalname file) in
         let* uuid := randomUUID in
         let fileName := uuid ++ fileExtension in
         minioClient_putObject bucketName fileName file >>
         let filePath := bucketName ++ JS.lit "/" ++ fileName in
         ret filePath
     end)
    (λ error,
       throw (http BadRequestException
         (JS.lit "Erro no upload: " ++ JS.template (message error)))).

Definition fileExists (bucketName fileName : list N) : M World bool :=
  try_catch
    (minioClient_statObject bucketName fileName >> ret true)
    (λ _, ret false).

Definition deleteFile (filePath : list N) : M World unit :=
  log_call (CallDelete filePath) >>
  try_catch
    (if negb (JS.truthy filePath) then
       throw (http BadRequestException
         (JS.lit "Caminho do arquivo não fornecido"))
     else
       let (bucketName, fileName) := extractBucketAndFileName filePath in
       if negb (JS.truthy_opt bucketName) || negb (JS.truthy_opt fileName)
       then
         throw (http BadRequestException
           (JS.lit "Caminho do arquivo inválido"))
       else
         let bucketName := default [] bucketName in
         let fileName := default [] fileName in
         let* exists_ := fileExists bucketName fileName in
         if negb exists_ then ret tt
         else minioClient_removeObject bucketName fileName >> ret tt)
    (λ error,
       throw (http BadRequestException
         (JS.lit "Erro ao deletar: " ++ JS.template (message error)))).

Definition getFileUrl (filePath : list N) : list N :=
  if negb (JS.truthy filePath) then []
  else
    let (bucketName, fileName) := extractBucketAndFileName filePath in
    if negb (JS.truthy_opt bucketName) || negb (JS.truthy_opt fileName)
    then []
    else
      let endpoint := config env !! "MINIO_ENDPOINT"%string in
      let port := config env !! "MINIO_PORT"%string in
      let useSSL :=
        bool_decide (config env !! "MINIO_USE_SSL"%string
                     = Some (JS.lit "true")) in
      let protocol := if useSSL then JS.lit "https" else JS.lit "http" in
      let portSuffix :=
        if useSSL && bool_decide (port = Some (JS.lit "443"))
           || negb useSSL && bool_decide (port = Some (JS.lit "80"))
        then []
        else JS.lit ":" ++ JS.template port in
      protocol ++ JS.lit "://" ++ JS.template endpoint ++ portSuffix
        ++ JS.lit "/" ++ JS.template bucketName
        ++ JS.lit "/" ++ JS.template fileName.

(** ** MapboxService *)

Definition geocodeAddress (address : list N) : M World GeocodeResult.t :=
  log_call (CallGeocode address) >>
  if negb (JS.truthy address) || (length (JS.trim address) =? 0)%nat then
    throw (http BadRequestException (JS.lit "Address cannot be empty"))
  else
    try_catch
      (let* response := geocodingClient_forwardGeocode (JS.trim address) in
       match GeocodeResponse.features response with
       | None | Some [] =>
           throw (http BadRequestException
             (JS.lit "Address not found: " ++ address))
       | Some (feature :: _) =>
           let (longitude, latitude) := Feature.center feature in
           ret {| GeocodeResult.latitude := latitude;
                  GeocodeResult.longitude := longitude;
                  GeocodeResult.formattedAddress :=
                    Some (Feature.place_name feature) |}
       end)
      (λ error,
         if instanceof_BadRequestException error then throw error
         else
           throw (http InternalServerErrorException
             (JS.lit "Geocoding service failed: "
              ++ (if instanceof_Error error
                  then JS.template (message error)
                  else JS.lit "Unknown error")))).

(** ** LocationsService *)

Definition isMinioPath (imageUrl : list N) : bool :=
  if negb (JS.truthy imageUrl) then false
  else JS.includes imageUrl (JS.lit "/locations/")
       || JS.startsWith imageUrl (JS.lit "locations/").

Definition extractMinioPath (imageUrl : list N) : list N :=
  if JS.includes imageUrl (JS.lit "/locations/") then
    let parts := JS.split imageUrl (JS.lit "/locations/") in
    JS.lit "locations/" ++ JS.template (parts !! 1%nat)
  else imageUrl.

Definition findOne (id : list N) : M World Location.t :=
  let* location := prisma_location_findUnique id in
  match location with
  | None => throw (http NotFoundException (JS.lit "Location not found"))
  | Some location => ret location
  end.

Definition create (createLocationDto : CreateLocationDto.t)
    (userId : list N) (imageFile : option File.t) : M World Location.t :=
  let address := CreateLocationDto.address createLocationDto in
  let name := CreateLocationDto.name createLocationDto in
  let description := CreateLocationDto.description createLocationDto in
  let image := CreateLocationDto.image createLocationDto in
  let* geo := geocodeAddress address in
  with_locals
    {| CreateLocals.imageUrl := image;
       CreateLocals.uploadedFilePath := None |}
    (try_catch
       ((match imageFile with
         | Some _ =>
             let* filePath := call (uploadFile imageFile LOCATIONS) in
             assign (λ l,
               {| CreateLocals.imageUrl := CreateLocals.imageUrl l;
                  CreateLocals.uploadedFilePath := Some filePath |}) >>
             assign (λ l,
               {| CreateLocals.imageUrl := Some (getFileUrl filePath);
                  CreateLocals.uploadedFilePath :=
                    CreateLocals.uploadedFilePath l |})
         | None => ret tt
         end) >>
        let* l := locals in
        let* location :=
          call (prisma_location_create
            {| CreateData.name := name;
               CreateData.description := description;
               CreateData.latitude := GeocodeResult.latitude geo;
               CreateData.longitude := GeocodeResult.longitude geo;
               CreateData.image := CreateLocals.imageUrl l;
               CreateData.userId := userId |}) in
        ret location)
       (λ error,
          let* l := locals in
          (if JS.truthy_opt (CreateLocals.uploadedFilePath l) then
             call (catch_and_log
               (deleteFile (default [] (CreateLocals.uploadedFilePath l))))
           else ret tt) >>
          throw error)).

(** The block [// Handle address geocoding] of [update]: the value of
    [coordinates] as [(latitude, longitude)]. *)
Definition update_geocode (address : option (list N))
  : M World (option (Z * Z)) :=
  if JS.truthy_opt address then
    let* geo := geocodeAddress (default [] address) in
    ret (Some (GeocodeResult.latitude geo, GeocodeResult.longitude geo))
  else ret None.

(** [updateData]: [{ ...rest, ...coordinates }], then [image] when
    [imageUrl !== undefined]. *)
Definition updateData (dto : UpdateLocationDto.t) (l : UpdateLocals.t)
  : UpdateData.t :=
  {| UpdateData.name := UpdateLocationDto.name dto;
     UpdateData.description := UpdateLocationDto.description dto;
     UpdateData.image :=
       match UpdateLocals.imageUrl l with
       | Some imageUrl => Some imageUrl
       | None => UpdateLocationDto.image dto
       end;
     UpdateData.latitude := fst <$> UpdateLocals.coordinates l;
     UpdateData.longitude := snd <$> UpdateLocals.coordinates l |}.

Definition update (id : list N) (updateLocationDto : UpdateLocationDto.t)
    (imageFile : option File.t) : M World Location.t :=
  let* existingLocation := findOne id in
  let address := UpdateLocationDto.address updateLocationDto in
  let keepImage := UpdateLocationDto.keepImage updateLocationDto in
  let existingImage := Location.image existingLocation in
  with_locals
    {| UpdateLocals.coordinates := None;
       UpdateLocals.imageUrl := None;
       UpdateLocals.uploadedFilePath := None;
       UpdateLocals.oldImagePath := None |}
    (try_catch
       (let* coordinates := call (update_geocode address) in
        assign (λ l,
          {| UpdateLocals.coordinates := coordinates;
             UpdateLocals.imageUrl := UpdateLocals.imageUrl l;
             UpdateLocals.uploadedFilePath := UpdateLocals.uploadedFilePath l;
             UpdateLocals.oldImagePath := UpdateLocals.oldImagePath l |}) >>
        (match imageFile with
         | Some _ =>
             let* filePath := call (uploadFile imageFile LOCATIONS) in
             assign (λ l,
               {| UpdateLocals.coordinates := UpdateLocals.coordinates l;
                  UpdateLocals.imageUrl := UpdateLocals.imageUrl l;
                  UpdateLocals.uploadedFilePath := Some filePath;
                  UpdateLocals.oldImagePath := UpdateLocals.oldImagePath l |}) >>
             assign (λ l,
               {| UpdateLocals.coordinates := UpdateLocals.coordinates l;
                  UpdateLocals.imageUrl := Some (getFileUrl filePath);
                  UpdateLocals.uploadedFilePath :=
                    UpdateLocals.uploadedFilePath l;
                  UpdateLocals.oldImagePath := UpdateLocals.oldImagePath l |}) >>
             if JS.truthy_opt existingImage
                && isMinioPath (default [] existingImage)
             then
               assign (λ l,
                 {| UpdateLocals.coordinates := UpdateLocals.coordinates l;
                    UpdateLocals.imageUrl := UpdateLocals.imageUrl l;
                    UpdateLocals.uploadedFilePath :=
                      UpdateLocals.uploadedFilePath l;
                    UpdateLocals.oldImagePath :=
                      Some (extractMinioPath (default [] existingImage)) |})
             else ret tt
         | None =>
             if bool_decide (keepImage = Some false)
                && JS.truthy_opt existingImage
             then
               assign (λ l,
                 {| UpdateLocals.coordinates := UpdateLocals.coordinates l;
                    UpdateLocals.imageUrl := Some [];
                    UpdateLocals.uploadedFilePath :=
                      UpdateLocals.uploadedFilePath l;
                    UpdateLocals.oldImagePath := UpdateLocals.oldImagePath l |}) >>
               if isMinioPath (default [] existingImage) then
                 assign (λ l,
                   {| UpdateLocals.coordinates := UpdateLocals.coordinates l;
                      UpdateLocals.imageUrl := UpdateLocals.imageUrl l;
                      UpdateLocals.uploadedFilePath :=
                        UpdateLocals.uploadedFilePath l;
                      UpdateLocals.oldImagePath :=
                        Some (extractMinioPath (default [] existingImage)) |})
               else ret tt
             else ret tt
         end) >>
        let* l := locals in
        let* location :=
          call (prisma_location_update id (updateData updateLocationDto l)) in
        (if JS.truthy_opt (UpdateLocals.oldImagePath l) then
           call (catch_and_log
             (deleteFile (default [] (UpdateLocals.oldImagePath l))))
         else ret tt) >>
        ret location)
       (λ error,
          let* l := locals in
          (if JS.truthy_opt (UpdateLocals.uploadedFilePath l) then
             call (catch_and_log
               (deleteFile (default [] (UpdateLocals.uploadedFilePath l))))
           else ret tt) >>
          throw error)).

Definition remove (id : list N) : M World unit :=
  let* location := findOne id in
  prisma_location_delete id >>
  (if JS.truthy_opt (Location.image location)
      && isMinioPath (default [] (Location.image location))
   then
     let imagePath := extractMinioPath (default [] (Location.image location)) in
     catch_and_log (deleteFile imagePath)
   else ret tt) >>
  ret tt.

(** ** Reading a stored image reference back

    The coordinator has no single parser: a stored image is taken for a
    reference of the store when [isMinioPath] holds, [extractMinioPath]
    turns it into a path, and [deleteFile] reads bucket and key off that
    path with [extractBucketAndFileName], rejecting an absent or empty
    part.  [parseURL] is that chain; [None] is [ok = false]. *)
Definition parseURL (url : list N) : option (list N * list N) :=
  if isMinioPath url then
    let (bucketName, fileName) :=
      extractBucketAndFileName (extractMinioPath url) in
    if negb (JS.truthy_opt bucketName) || negb (JS.truthy_opt fileName)
    then None
    else Some (default [] bucketName, default [] fileName)
  else None.

(** [BuildURL(bucket, key)]: [getFileUrl] of the path [bucket/key]. *)
Definition buildURL (bucket key : list N) : list N :=
  getFileUrl (bucket ++ JS.lit "/" ++ key).

End Services.

(** ** Earlier revisions kept in the sources

    The sources also hold an earlier [MapboxService.geocodeAddress]
    without the check for an empty address, and an earlier
    [LocationsService.create] that uploads but has no [try]/[catch].  The
    services above are the later revisions, the ones with image handling in
    [update] and [remove]. *)
Module Earlier.

Definition create (env : Env) (createLocationDto : CreateLocationDto.t)
    (userId : list N) (imageFile : option File.t) : M World Location.t :=
  let address := CreateLocationDto.address createLocationDto in
  let name := CreateLocationDto.name createLocationDto in
  let description := CreateLocationDto.description createLocationDto in
  let image := CreateLocationDto.image createLocationDto in
  let* geo := geocodeAddress env address in
  let* imageUrl :=
    match imageFile with
    | Some _ =>
        let* imagePath := uploadFile env imageFile LOCATIONS in
        ret (Some (getFileUrl env imagePath))
    | None => ret image
    end in
  let* location :=
    prisma_location_create env
      {| CreateData.name := name;
         CreateData.description := description;
         CreateData.latitude := GeocodeResult.latitude geo;
         CreateData.longitude := GeocodeResult.longitude geo;
         CreateData.image := imageUrl;
         CreateData.userId := userId |} in
  ret location.

Definition geocodeAddress (env : Env) (address : list N) : M World (Z * Z) :=
  log_call (CallGeocode address) >>
  try_catch
    (let* response := geocodingClient_forwardGeocode env address in
     match GeocodeResponse.features response with
     | None =>
         throw {| kind := OtherError;
                  message := Some (JS.lit
                    "Cannot read properties of undefined (reading 'length')") |}
     | Some [] =>
         throw {| kind := OtherError;
                  message := Some (JS.lit "Address not found") |}
     | Some (feature :: _) =>
         let (longitude, latitude) := Feature.center feature in
         ret (latitude, longitude)
     end)
    (λ error,
       throw {| kind := OtherError;
                message := Some (JS.lit "Geocoding failed: "
                                 ++ JS.template (message error)) |}).

End Earlier.

(** [{protocol}://{endpoint}{:port unless default}], the part of a public
    URL that [getFileUrl] writes before [/{bucket}/{key}]. *)
Definition origin (env : Env) : list N :=
  let port := config env !! "MINIO_PORT"%string in
  let useSSL :=
    bool_decide (config env !! "MINIO_USE_SSL"%string = Some (JS.lit "true")) in
  (if useSSL then JS.lit "https" else JS.lit "http")
  ++ JS.lit "://" ++ JS.template (config env !! "MINIO_ENDPOINT"%string)
  ++ (if useSSL && bool_decide (port = Some (JS.lit "443"))
         || negb useSSL && bool_decide (port = Some (JS.lit "80"))
      then []
      else JS.lit ":" ++ JS.template port).

(** ** Scenarios

    Concrete environments and worlds on which the properties below are
    exercised. *)

Definition empty_world : World :=
  {| objects := ∅; rows := ∅; calls := []; wire := [] |}.

(** A stand-in for Node's [path.extname] on plain file names: the text
    from the last dot on. *)
Definition plain_extname (name : list N) : list N :=
  let parts := JS.split name (JS.lit ".") in
  if (length parts <? 2)%nat then []
  else JS.lit "." ++ default [] (last parts).

Definition paris : Feature.t :=
  {| Feature.center := (2294481, 48858370)%Z;
     Feature.place_name := JS.lit "Champ de Mars, Paris" |}.

Definition db_down : Exn :=
  {| kind := OtherError; message := Some (JS.lit "connection refused") |}.

Definition store_down : Exn :=
  {| kind := OtherError; message := Some (JS.lit "socket hang up") |}.

(** Everything works: MinIO on [localhost:9000] without TLS. *)
Definition healthy_env : Env :=
  {| config :=
       <["MINIO_ENDPOINT"%string := JS.lit "localhost"]>
         (<["MINIO_PORT"%string := JS.lit "9000"]> ∅);
     path_extname := plain_extname;
     crypto_randomUUID := λ w,
       JS.lit "3f2b8c1e-0000-4000-8000-00000000000"
       ++ [48 + N.of_nat (length (wire w))];
     mapbox_send := λ _ _,
       Ok {| GeocodeResponse.features := Some [paris] |};
     minio_fault := λ _ _, None;
     prisma_fault := λ _ _, None;
     prisma_newId := λ w, JS.lit "loc-" ++ [48 + N.of_nat (length (calls w))] |}.

(** Writes to the table fail, and so does removing an object. *)
Definition failing_env : Env :=
  {| config := config healthy_env;
     path_extname := plain_extname;
     crypto_randomUUID := crypto_randomUUID healthy_env;
     mapbox_send := mapbox_send healthy_env;
     minio_fault := λ _ c,
       match c with RemoveObject _ _ => Some store_down | _ => None end;
     prisma_fault := λ _ c,
       match c with
       | CallPersistCreate _ | CallPersistUpdate _ _ => Some db_down
       | _ => None
       end;
     prisma_newId := prisma_newId healthy_env |}.

(** The table works, removing an object fails. *)
Definition sticky_store_env : Env :=
  {| config := config healthy_env;
     path_extname := plain_extname;
     crypto_randomUUID := crypto_randomUUID healthy_env;
     mapbox_send := mapbox_send healthy_env;
     minio_fault := minio_fault failing_env;
     prisma_fault := λ _ _, None;
     prisma_newId := prisma_newId healthy_env |}.

(** The geocoding upstream is unreachable. *)
Definition offline_geocoder_env : Env :=
  {| config := config healthy_env;
     path_extname := plain_extname;
     crypto_randomUUID := crypto_randomUUID healthy_env;
     mapbox_send := λ _ _,
       Throw {| kind := OtherError; message := Some (JS.lit "ENOTFOUND") |};
     minio_fault := λ _ _, None;
     prisma_fault := λ _ _, None;
     prisma_newId := prisma_newId healthy_env |}.

(** MinIO reachable as host [locations] on port 80. *)
Definition locations_host_env : Env :=
  {| config :=
       <["MINIO_ENDPOINT"%string := JS.lit "locations"]>
         (<["MINIO_PORT"%string := JS.lit "80"]> ∅);
     path_extname := plain_extname;
     crypto_randomUUID := crypto_randomUUID healthy_env;
     mapbox_send := mapbox_send healthy_env;
     minio_fault := λ _ _, None;
     prisma_fault := λ _ _, None;
     prisma_newId := prisma_newId healthy_env |}.

Definition photo (size : Z) : File.t :=
  {| File.originalname := JS.lit "tower.png";
     File.mimetype := JS.lit "image/png";
     File.size := size;
     File.buffer := [137; 80; 78; 71] |}.

Definition eiffel (image : option (list N)) : CreateLocationDto.t :=
  {| CreateLocationDto.name := JS.lit "Eiffel Tower";
     CreateLocationDto.description := None;
     CreateLocationDto.address := JS.lit "Champ de Mars, Paris";
     CreateLocationDto.image := image |}.

(** A stored row with the given image, and the world that holds it
    together with the object [locations/old.png]. *)
Definition tower_row (image : option (list N)) : Location.t :=
  {| Location.id := JS.lit "loc-7";
     Location.name := JS.lit "Eiffel Tower";
     Location.description := None;
     Location.latitude := 48858370;
     Location.longitude := 2294481;
     Location.image := image;
     Location.userId := JS.lit "user-1" |}.

Definition tower_world (image : option (list N)) : World :=
  {| objects :=
       {[ (JS.lit "locations", JS.lit "old.png") :=
            {| StoredObject.body := [1; 2; 3];
               StoredObject.contentType := JS.lit "image/png";
               StoredObject.originalName := JS.lit "old.png" |} ]};
     rows := {[ JS.lit "loc-7" := tower_row image ]};
     calls := [];
     wire := [] |}.

Definition patch (image : option (list N)) (keepImage : option bool)
  : UpdateLocationDto.t :=
  {| UpdateLocationDto.name := None;
     UpdateLocationDto.description := Some (JS.lit "Seen from the Seine");
     UpdateLocationDto.address := None;
     UpdateLocationDto.image := image;
     UpdateLocationDto.keepImage := keepImage |}.

(** The paths of the Delete calls in a call log, in order. *)
Definition deletes (log : list Call) : list (list N) :=
  omap (λ c, match c with CallDelete filePath => Some filePath | _ => None end)
    log.

(** [m] never changes the part [proj] of the world, whether it returns or
    throws. *)
Definition preserves {A B} (proj : World → B) (m : M World A) : Prop :=
  ∀ w, proj (snd (m w)) = proj w.

(** The row [create] asks the table to store, and the data [update]
    sends, as the two methods build them. *)
Definition createData (dto : CreateLocationDto.t) (userId : list N)
    (geo : GeocodeResult.t) (image : option (list N)) : CreateData.t :=
  {| CreateData.name := CreateLocationDto.name dto;
     CreateData.description := CreateLocationDto.description dto;
     CreateData.latitude := GeocodeResult.latitude geo;
     CreateData.longitude := GeocodeResult.longitude geo;
     CreateData.image := image;
     CreateData.userId := userId |}.

Definition patchData (dto : UpdateLocationDto.t)
    (coordinates : option (Z * Z)) (imageUrl : option (list N))
  : UpdateData.t :=
  updateData dto
    {| UpdateLocals.coordinates := coordinates;
       UpdateLocals.imageUrl := imageUrl;
       UpdateLocals.uploadedFilePath := None;
       UpdateLocals.oldImagePath := None |}.

(** The calls [update] makes before it writes: the lookup, and the
    geocoding when the request carries an address. *)
Definition update_prologue (id : list N) (dto : UpdateLocationDto.t)
  : list Call :=
  CallFindUnique id
  :: (if JS.truthy_opt (UpdateLocationDto.address dto)
      then [CallGeocode (default [] (UpdateLocationDto.address dto))]
      else []).

(** ** More of MinioService *)


(** *** Buckets at start-up

    [onModuleInit] works on the buckets of the store, not on its objects:
    the state here is the set of buckets, each with the policy attached to
    it if any, and the log of the administrative calls.  The policy is
    handed over as the document that [JSON.stringify] serialises. *)
Module Buckets.

Record Statement := {
  Effect : list N;
  Principal_AWS : list (list N);
  Action : list (list N);
  Resource : list (list N);
}.

Record Policy := {
  Version : list N;
  Statements : list Statement;
}.

Inductive Admin :=
| BucketExists (bucketName : list N)
| MakeBucket (bucketName region : list N)
| SetBucketPolicy (bucketName : list N) (policy : Policy).

Record Store := {
  buckets : gmap (list N) (option Policy);
  admin : list Admin;
}.

(** An administrative call: it is logged, then fails if the oracle says
    so. *)
Definition admin_call (fault : Store → Admin → option Exn) (c : Admin)
  : M Store unit :=
  λ s,
    let s' := {| buckets := buckets s; admin := admin s ++ [c] |} in
    match fault s c with
    | Some e => (Throw e, s')
    | None => (Ok tt, s')
    end.

Definition minioClient_bucketExists (fault : Store → Admin → option Exn)
    (bucketName : list N) : M Store bool :=
  admin_call fault (BucketExists bucketName) >>
  λ s, (Ok (bool_decide (is_Some (buckets s !! bucketName))), s).

Definition minioClient_makeBucket (fault : Store → Admin → option Exn)
    (bucketName region : list N) : M Store unit :=
  admin_call fault (MakeBucket bucketName region) >>
  λ s,
    match buckets s !! bucketName with
    | Some _ =>
        (Throw {| kind := OtherError;
                  message := Some (JS.lit "BucketAlreadyOwnedByYou") |}, s)
    | None =>
        (Ok tt, {| buckets := <[bucketName := None]> (buckets s);
                   admin := admin s |})
    end.

Definition minioClient_setBucketPolicy (fault : Store → Admin → option Exn)
    (bucketName : list N) (policy : Policy) : M Store unit :=
  admin_call fault (SetBucketPolicy bucketName policy) >>
  λ s,
    match buckets s !! bucketName with
    | None =>
        (Throw {| kind := OtherError;
                  message := Some (JS.lit "NoSuchBucket") |}, s)
    | Some _ =>
        (Ok tt, {| buckets := <[bucketName := Some policy]> (buckets s);
                   admin := admin s |})
    end.

(** The [policy] literal of [initializeBucket]. *)
Definition publicRead (bucketName : list N) : Policy :=
  {| Version := JS.lit "2012-10-17";
     Statements :=
       [ {| Effect := JS.lit "Allow";
            Principal_AWS := [JS.lit "*"];
            Action := [JS.lit "s3:GetObject"];
            Resource := [JS.lit "arn:aws:s3:::" ++ bucketName ++ JS.lit "/*"] |} ] |}.

Definition initializeBucket (fault : Store → Admin → option Exn)
    (bucketName : list N) : M Store unit :=
  try_catch
    (let* bucketExists := minioClient_bucketExists fault bucketName in
     if negb bucketExists then
       minioClient_makeBucket fault bucketName (JS.lit "us-east-1") >>
       let policy := publicRead bucketName in
       minioClient_setBucketPolicy fault bucketName policy
     else ret tt)
    (λ _, ret tt).

(** [for (const bucketName of bucketsToInitialize) await ...] *)
Fixpoint for_each (fault : Store → Admin → option Exn)
    (bucketsToInitialize : list (list N)) : M Store unit :=
  match bucketsToInitialize with
  | [] => ret tt
  | bucketName :: rest =>
      initializeBucket fault bucketName >> for_each fault rest
  end.

Definition initializeBuckets (fault : Store → Admin → option Exn)
  : M Store unit :=
  let bucketsToInitialize := BucketType_values in
  for_each fault bucketsToInitialize.

Definition onModuleInit (fault : Store → Admin → option Exn) : M Store unit :=
  initializeBuckets fault.

(** Scenarios: no bucket yet; the bucket made but left without a policy;
    a store that answers every call; one that refuses to attach policies. *)
Definition no_bucket : Store := {| buckets := ∅; admin := [] |}.

Definition bare_bucket : Store :=
  {| buckets := {[ JS.lit "locations" := None ]}; admin := [] |}.

Definition no_fault : Store → Admin → option Exn := λ _ _, None.

Definition policy_refused : Store → Admin → option Exn :=
  λ _ c,
    match c with
    | SetBucketPolicy _ _ =>
        Some {| kind := OtherError; message := Some (JS.lit "AccessDenied") |}
    | _ => None
    end.

End Buckets.

(** ** More scenarios *)

(** The upstream finds nothing. *)
Definition nowhere_env : Env :=
  {| config := config healthy_env;
     path_extname := plain_extname;
     crypto_randomUUID := crypto_randomUUID healthy_env;
     mapbox_send := λ _ _, Ok {| GeocodeResponse.features := Some [] |};
     minio_fault := λ _ _, None;
     prisma_fault := λ _ _, None;
     prisma_newId := prisma_newId healthy_env |}.

(** The store is unreachable: every call to it fails. *)
Definition store_outage_env : Env :=
  {| config := config healthy_env;
     path_extname := plain_extname;
     crypto_randomUUID := crypto_randomUUID healthy_env;
     mapbox_send := mapbox_send healthy_env;
     minio_fault := λ _ _, Some store_down;
     prisma_fault := λ _ _, None;
     prisma_newId := prisma_newId healthy_env |}.

(** Deleting a row fails. *)
Definition no_delete_env : Env :=
  {| config := config healthy_env;
     path_extname := plain_extname;
     crypto_randomUUID := crypto_randomUUID healthy_env;
     mapbox_send := mapbox_send healthy_env;
     minio_fault := λ _ _, None;
     prisma_fault := λ _ c,
       match c with CallPersistDelete _ => Some db_down | _ => None end;
     prisma_newId := prisma_newId healthy_env |}.

Definition leaflet : File.t :=
  {| File.originalname := JS.lit "leaflet.pdf";
     File.mimetype := JS.lit "application/pdf";
     File.size := 2048;
     File.buffer := [37; 80; 68; 70] |}.

Definition move_to (address : list N) : UpdateLocationDto.t :=
  {| UpdateLocationDto.name := None;
     UpdateLocationDto.description := None;
     UpdateLocationDto.address := Some address;
     UpdateLocationDto.image := None;
     UpdateLocationDto.keepImage := None |}.

(** * Properties *)

(** ** Facts about the string functions *)

Module JSFacts.
Import JS.

Lemma startsWith_nil (s : list N) : startsWith s [] = true.
Proof. by destruct s. Qed.

Lemma startsWith_app (p r : list N) : startsWith (p ++ r) p = true.
Proof.
  induction p as [|a p IH]; simpl; [apply startsWith_nil|].
  by rewrite N.eqb_refl, IH.
Qed.

Lemma startsWith_drop (s p : list N) :
  startsWith s p = true → s = p ++ drop (length p) s.
Proof.
  revert s; induction p as [|a p IH]; intros [|b s] H; simpl in *;
    try done.
  apply andb_true_iff in H as [Hab Hp].
  apply N.eqb_eq in Hab as ->. f_equal. by apply IH.
Qed.

(** Only the first [length p] units of [s] matter. *)
Lemma startsWith_long (x y p : list N) :
  (length p ≤ length x)%nat → startsWith (x ++ y) p = startsWith x p.
Proof.
  revert x; induction p as [|a p IH]; intros [|b x] H; simpl in *;
    try done; try lia.
  - by destruct y.
  - rewrite IH; [done | lia].
Qed.

Lemma cut_unfold (s sep : list N) :
  cut s sep =
    if startsWith s sep then Some ([], drop (length sep) s)
    else match s with
         | [] => None
         | c :: s' =>
             match cut s' sep with
             | Some (b, a) => Some (c :: b, a)
             | None => None
             end
         end.
Proof.
  destruct s as [|c s]; [|done].
  simpl. destruct sep; simpl; done.
Qed.

Lemma cut_spec (s sep b a : list N) :
  cut s sep = Some (b, a) → s = b ++ sep ++ a.
Proof.
  revert b a; induction s as [|c s IH]; intros b a; rewrite cut_unfold.
  - destruct (startsWith [] sep) eqn:E; [|done].
    intros [= <- <-]. simpl. by apply startsWith_drop.
  - destruct (startsWith (c :: s) sep) eqn:E.
    + intros [= <- <-]. simpl. by apply startsWith_drop.
    + destruct (cut s sep) as [[b' a']|] eqn:Hc; [|done].
      intros [= <- <-]. simpl. f_equal. by apply IH.
Qed.

Lemma cut_shorter (s sep b a : list N) :
  sep ≠ [] → cut s sep = Some (b, a) → (length a < length s)%nat.
Proof.
  intros Hsep H. apply cut_spec in H as ->.
  rewrite !length_app. destruct sep; [done | simpl; lia].
Qed.

Lemma cut_absent (s sep : list N) :
  includes s sep = false → cut s sep = None.
Proof.
  induction s as [|c s IH]; intros H; rewrite cut_unfold.
  - change (startsWith [] sep = false) in H. by rewrite H.
  - change (startsWith (c :: s) sep || includes s sep = false) in H.
    apply orb_false_iff in H as [H1 H2].
    rewrite H1, (IH H2). done.
Qed.

Lemma includes_unfold (s sep : list N) :
  includes s sep =
    startsWith s sep
    || match s with [] => false | _ :: s' => includes s' sep end.
Proof. destruct s; [apply eq_sym, orb_false_r | done]. Qed.

Lemma includes_app (pre sep rest : list N) :
  includes (pre ++ sep ++ rest) sep = true.
Proof.
  induction pre as [|c pre IH].
  - rewrite includes_unfold. simpl. by rewrite startsWith_app.
  - simpl. rewrite IH. apply orb_true_r.
Qed.

(** The first occurrence of a separator [init ++ [l]] in
    [pre ++ sep ++ rest] is the one after [pre], as soon as none starts
    earlier; such an occurrence would lie inside [pre ++ init]. *)
Lemma cut_first (pre init rest : list N) (l : N) :
  includes (pre ++ init) (init ++ [l]) = false →
  cut (pre ++ (init ++ [l]) ++ rest) (init ++ [l]) = Some (pre, rest).
Proof.
  induction pre as [|c pre IH]; intros H; rewrite cut_unfold.
  - simpl. rewrite startsWith_app. by rewrite drop_app_length.
  - change (startsWith ((c :: pre) ++ init) (init ++ [l])
            || includes (pre ++ init) (init ++ [l]) = false) in H.
    apply orb_false_iff in H as [H1 H2].
    assert (startsWith ((c :: pre) ++ (init ++ [l]) ++ rest) (init ++ [l])
            = false) as ->.
    { rewrite <- (app_assoc init [l] rest), (app_assoc (c :: pre) init).
      rewrite startsWith_long; [done|].
      rewrite !length_app. simpl. lia. }
    simpl. by rewrite (IH H2).
Qed.

Lemma split_fuel_enough (sep : list N) (n m : nat) (s : list N) :
  sep ≠ [] → (length s < n)%nat → (length s < m)%nat →
  split_fuel n s sep = split_fuel m s sep.
Proof.
  intros Hsep. revert m s; induction n as [|n IH]; intros [|m] s Hn Hm;
    try lia.
  simpl. destruct (cut s sep) as [[b a]|] eqn:Hc; [|done].
  f_equal. pose proof (cut_shorter _ _ _ _ Hsep Hc). apply IH; lia.
Qed.

(** The equation of [split]: the fuel never runs out. *)
Lemma split_unfold (s sep : list N) :
  sep ≠ [] →
  split s sep =
    match cut s sep with
    | None => [s]
    | Some (b, a) => b :: split a sep
    end.
Proof.
  intros Hsep. unfold split. destruct sep as [|c sep]; [done|].
  change (split_fuel (S (length s)) s (c :: sep))
    with (match cut s (c :: sep) with
          | None => [s]
          | Some (b, a) => b :: split_fuel (length s) a (c :: sep)
          end).
  destruct (cut s (c :: sep)) as [[b a]|] eqn:Hc; [|done].
  f_equal. pose proof (cut_shorter _ _ _ _ Hsep Hc).
  apply split_fuel_enough; [done | lia | lia].
Qed.

Lemma split_absent (s sep : list N) :
  sep ≠ [] → includes s sep = false → split s sep = [s].
Proof.
  intros Hsep H. rewrite split_unfold by done. by rewrite cut_absent.
Qed.

Lemma split_nonempty (s sep : list N) : sep ≠ [] → split s sep ≠ [].
Proof.
  intros Hsep. rewrite split_unfold by done.
  by destruct (cut s sep) as [[b a]|].
Qed.

Lemma join_cons (x : list N) (rest : list (list N)) (sep : list N) :
  rest ≠ [] → join (x :: rest) sep = x ++ sep ++ join rest sep.
Proof. by destruct rest. Qed.

(** Joining the parts with the separator gives the string back. *)
Lemma join_split (s sep : list N) :
  sep ≠ [] → join (split s sep) sep = s.
Proof.
  intros Hsep. remember (length s) as n eqn:Hn.
  revert s Hn; induction n as [n IH] using lt_wf_ind; intros s ->.
  rewrite split_unfold by done.
  destruct (cut s sep) as [[b a]|] eqn:Hc; [|done].
  rewrite join_cons by by apply split_nonempty.
  pose proof (cut_shorter _ _ _ _ Hsep Hc).
  rewrite (IH (length a)); [|done|done].
  symmetry. by apply cut_spec.
Qed.

Lemma trimEnd_app (p k : list N) :
  trimEnd k ≠ [] → trimEnd (p ++ k) = p ++ trimEnd k.
Proof.
  intros Hk. induction p as [|c p IH]; [done|].
  simpl. rewrite IH. destruct (p ++ trimEnd k) eqn:E; [|done].
  apply app_eq_nil in E as [_ E]. done.
Qed.

End JSFacts.

(** ** Paths and public URLs *)

Module PathFacts.
Import JS JSFacts.

Lemma lit_locations_sep :
  lit "/locations/" = lit "/locations" ++ [47].
Proof. reflexivity. Qed.

Lemma trim_path (key : list N) :
  key ≠ [] → trimEnd key = key →
  trim (lit "locations/" ++ key) = lit "locations/" ++ key.
Proof.
  intros Hne Hk. unfold trim.
  change (trimStart (lit "locations/" ++ key)) with (lit "locations/" ++ key).
  rewrite trimEnd_app; rewrite Hk; done.
Qed.

(** A path [locations/key] is read back as bucket and key. *)
Lemma extract_path (key : list N) :
  key ≠ [] → trimEnd key = key →
  extractBucketAndFileName (lit "locations/" ++ key)
  = (Some (lit "locations"), Some key).
Proof.
  intros Hne Hk. unfold extractBucketAndFileName. cbv beta zeta.
  change (truthy (lit "locations/" ++ key)) with true.
  rewrite trim_path by done.
  assert (split (lit "locations/" ++ key) (lit "/")
          = lit "locations" :: split key (lit "/")) as ->.
  { rewrite split_unfold by done.
    change (lit "locations/" ++ key)
      with (lit "locations" ++ ([] ++ [47]) ++ key).
    change (lit "/") with ([] ++ [47]).
    rewrite cut_first; done. }
  pose proof (split_nonempty key (lit "/") ltac:(done)) as Hs.
  change (slice1 (lit "locations" :: split key (lit "/")))
    with (split key (lit "/")).
  rewrite join_split by done.
  destruct (split key (lit "/")) as [|p ps] eqn:E; [done|].
  reflexivity.
Qed.

Lemma getFileUrl_path (env : Env) (key : list N) :
  key ≠ [] → trimEnd key = key →
  getFileUrl env (lit "locations/" ++ key)
  = origin env ++ lit "/locations/" ++ key.
Proof.
  intros Hne Hk. unfold getFileUrl.
  change (truthy (lit "locations/" ++ key)) with true.
  rewrite extract_path by done.
  assert (truthy_opt (Some key) = true) as -> by by destruct key.
  unfold origin. cbv beta zeta.
  change (negb true) with false.
  change (negb (truthy_opt (Some (lit "locations")))) with false.
  cbv iota. simpl orb. cbv iota.
  rewrite <- !app_assoc. reflexivity.
Qed.

(** When the first [/locations/] of a URL is the one [getFileUrl] wrote
    and the key holds no other, the path is recovered. *)
Lemma extractMinioPath_url (pre key : list N) :
  includes (pre ++ lit "/locations") (lit "/locations/") = false →
  includes key (lit "/locations/") = false →
  extractMinioPath (pre ++ lit "/locations/" ++ key)
  = lit "locations/" ++ key.
Proof.
  intros Hpre Hkey. unfold extractMinioPath.
  rewrite includes_app.
  rewrite split_unfold by done.
  rewrite lit_locations_sep in *.
  rewrite cut_first by done.
  rewrite split_absent by done.
  reflexivity.
Qed.

(** The path read off a URL that [getFileUrl] built. *)
Lemma extractMinioPath_buildURL (env : Env) (key : list N) :
  includes (origin env ++ lit "/locations") (lit "/locations/") = false →
  includes key (lit "/locations/") = false →
  key ≠ [] → trimEnd key = key →
  extractMinioPath (buildURL env (BucketType_value LOCATIONS) key)
  = BucketType_value LOCATIONS ++ lit "/" ++ key.
Proof.
  intros Horigin Hkey Hne Htrim. unfold buildURL.
  change (BucketType_value LOCATIONS ++ lit "/" ++ key)
    with (lit "locations/" ++ key).
  rewrite getFileUrl_path by done. by apply extractMinioPath_url.
Qed.

Lemma isMinioPath_url (pre key : list N) :
  isMinioPath (pre ++ lit "/locations/" ++ key) = true.
Proof.
  unfold isMinioPath. rewrite includes_app.
  by destruct pre.
Qed.

End PathFacts.

(** ** Running a method step by step *)

Lemma bind_ok {S A B} (m : M S A) (k : A → M S B) s a s' :
  m s = (Ok a, s') → bind m k s = k a s'.
Proof. unfold bind. by intros ->. Qed.

Lemma bind_throw {S A B} (m : M S A) (k : A → M S B) s e s' :
  m s = (Throw e, s') → bind m k s = (Throw e, s').
Proof. unfold bind. by intros ->. Qed.

(** A swallowed failure: the caller sees a normal return either way. *)
Lemma catch_and_log_ok {S} (m : M S unit) (s : S) :
  catch_and_log m s = (Ok tt, snd (m s)).
Proof.
  unfold catch_and_log, try_catch, ret.
  by destruct (m s) as [[[]|e] s'].
Qed.

(** A run whose result is known. *)
Lemma run_eq {S A} (m : M S A) (s : S) (r : Result A) :
  fst (m s) = r → m s = (r, snd (m s)).
Proof. intros <-. apply surjective_pairing. Qed.

(** ** What a method leaves alone *)

Section Frames.

Context {B : Type} (proj : World → B).

Lemma preserves_ret {A} (a : A) : preserves proj (ret a).
Proof. done. Qed.

Lemma preserves_throw {A} (e : Exn) : preserves proj (@throw World A e).
Proof. done. Qed.

Lemma preserves_of_result {A} (r : Result A) :
  preserves proj (of_result r).
Proof. done. Qed.

Lemma preserves_world : preserves proj world.
Proof. done. Qed.

Lemma preserves_bind {A C} (m : M World A) (k : A → M World C) :
  preserves proj m → (∀ a, preserves proj (k a)) →
  preserves proj (bind m k).
Proof.
  intros Hm Hk w. unfold bind. specialize (Hm w).
  destruct (m w) as [[a|e] w1]; simpl in *; [|done].
  by rewrite Hk.
Qed.

Lemma preserves_try_catch {A} (m : M World A) (h : Exn → M World A) :
  preserves proj m → (∀ e, preserves proj (h e)) →
  preserves proj (try_catch m h).
Proof.
  intros Hm Hh w. unfold try_catch. specialize (Hm w).
  destruct (m w) as [[a|e] w1]; simpl in *; [done|].
  by rewrite Hh.
Qed.

Lemma preserves_catch_and_log (m : M World unit) :
  preserves proj m → preserves proj (catch_and_log m).
Proof. intros Hm w. rewrite catch_and_log_ok. apply Hm. Qed.

End Frames.

(** Goals [preserves proj m]: follow the structure of [m], and use the
    facts already known about the methods it calls. *)
Create HintDb frames.

Ltac frame :=
  repeat first
    [ progress intros
    | solve [auto with frames]
    | apply preserves_ret | apply preserves_throw
    | apply preserves_of_result | apply preserves_world
    | apply preserves_catch_and_log
    | apply preserves_bind | apply preserves_try_catch
    | match goal with
      | |- preserves _ (if ?b then _ else _) => destruct b
      | |- preserves _ (match ?x with _ => _ end) => destruct x
      | |- preserves _ (let (_, _) := ?x in _) => destruct x
      end
    | done ].

(** After its entry in the call log, a method whose body keeps the log
    has added exactly that entry. *)
Lemma logged_calls {A} (c : Call) (body : M World A) (w : World) :
  preserves calls body →
  calls (snd ((log_call c >> body) w)) = calls w ++ [c].
Proof.
  intros Hb. unfold bind. simpl. specialize (Hb (snd (log_call c w))).
  destruct (body _) as [r w']. simpl in *. by rewrite Hb.
Qed.

Section ServiceFrames.

Variable env : Env.

Lemma outside_calls c : preserves calls (outside env c).
Proof. unfold outside. frame. Qed.

Lemma outside_rows c : preserves rows (outside env c).
Proof. unfold outside. frame. Qed.

Lemma outside_objects c : preserves objects (outside env c).
Proof. unfold outside. frame. Qed.

Hint Resolve outside_calls outside_rows outside_objects : frames.

Lemma putObject_calls b k f :
  preserves calls (minioClient_putObject env b k f).
Proof. unfold minioClient_putObject. frame. Qed.

Lemma putObject_rows b k f :
  preserves rows (minioClient_putObject env b k f).
Proof. unfold minioClient_putObject. frame. Qed.

Lemma statObject_calls b k : preserves calls (minioClient_statObject env b k).
Proof. unfold minioClient_statObject. frame. Qed.

Lemma statObject_rows b k : preserves rows (minioClient_statObject env b k).
Proof. unfold minioClient_statObject. frame. Qed.

Lemma statObject_objects b k :
  preserves objects (minioClient_statObject env b k).
Proof. unfold minioClient_statObject. frame. Qed.

Lemma removeObject_calls b k :
  preserves calls (minioClient_removeObject env b k).
Proof. unfold minioClient_removeObject. frame. Qed.

Lemma removeObject_rows b k :
  preserves rows (minioClient_removeObject env b k).
Proof. unfold minioClient_removeObject. frame. Qed.

Lemma randomUUID_calls : preserves calls (randomUUID env).
Proof. unfold randomUUID. frame. Qed.

Lemma randomUUID_rows : preserves rows (randomUUID env).
Proof. unfold randomUUID. frame. Qed.

Lemma forwardGeocode_calls q :
  preserves calls (geocodingClient_forwardGeocode env q).
Proof. unfold geocodingClient_forwardGeocode. frame. Qed.

Lemma forwardGeocode_rows q :
  preserves rows (geocodingClient_forwardGeocode env q).
Proof. unfold geocodingClient_forwardGeocode. frame. Qed.

Lemma forwardGeocode_objects q :
  preserves objects (geocodingClient_forwardGeocode env q).
Proof. unfold geocodingClient_forwardGeocode. frame. Qed.

Hint Resolve putObject_calls putObject_rows statObject_calls
  statObject_rows statObject_objects removeObject_calls removeObject_rows
  randomUUID_calls randomUUID_rows forwardGeocode_calls
  forwardGeocode_rows forwardGeocode_objects : frames.

Lemma fileExists_calls b k : preserves calls (fileExists env b k).
Proof. unfold fileExists. frame. Qed.

Lemma fileExists_rows b k : preserves rows (fileExists env b k).
Proof. unfold fileExists. frame. Qed.

Lemma fileExists_objects b k : preserves objects (fileExists env b k).
Proof. unfold fileExists. frame. Qed.

Hint Resolve fileExists_calls fileExists_rows fileExists_objects : frames.

(** *** The call log and the table after each method *)

Lemma geocodeAddress_calls address w :
  calls (snd (geocodeAddress env address w)) = calls w ++ [CallGeocode address].
Proof. unfold geocodeAddress. apply logged_calls. frame. Qed.

Lemma geocodeAddress_rows address : preserves rows (geocodeAddress env address).
Proof. unfold geocodeAddress. frame. Qed.

Lemma geocodeAddress_objects address :
  preserves objects (geocodeAddress env address).
Proof. unfold geocodeAddress. frame. Qed.

Lemma uploadFile_calls file b w :
  calls (snd (uploadFile env file b w)) = calls w ++ [CallUpload file b].
Proof. unfold uploadFile. apply logged_calls. frame. Qed.

Lemma uploadFile_rows file b : preserves rows (uploadFile env file b).
Proof. unfold uploadFile. frame. Qed.

Lemma deleteFile_calls filePath w :
  calls (snd (deleteFile env filePath w)) = calls w ++ [CallDelete filePath].
Proof. unfold deleteFile. apply logged_calls. frame. Qed.

Lemma deleteFile_rows filePath : preserves rows (deleteFile env filePath).
Proof. unfold deleteFile. frame. Qed.

End ServiceFrames.

Arguments geocodeAddress : simpl never.
Arguments uploadFile : simpl never.
Arguments deleteFile : simpl never.
Arguments getFileUrl : simpl never.
Arguments extractMinioPath : simpl never.
Arguments isMinioPath : simpl never.
Arguments prisma_location_create : simpl never.
Arguments prisma_location_update : simpl never.
Arguments findOne : simpl never.
Arguments update_geocode : simpl never.

(** ** GeocodingClient *)

Lemma trimStart_blank (s : list N) :
  Forall (λ c, JS.is_ws c = true) s → JS.trimStart s = [].
Proof. induction 1 as [|c s Hc _ IH]; simpl; [done | by rewrite Hc]. Qed.

(** C8. An address that is empty or made of whitespace only is refused
    with a bad-request error ("Address cannot be empty") before the
    upstream is asked: the call leaves nothing but its own entry in the
    call log, and no lookup on the wire. *)
Theorem geocodeAddress_blank (env : Env) (address : list N) (w : World) :
  Forall (λ c, JS.is_ws c = true) address →
  geocodeAddress env address w
  = (Throw (http BadRequestException (JS.lit "Address cannot be empty")),
     {| objects := objects w; rows := rows w;
        calls := calls w ++ [CallGeocode address]; wire := wire w |}).
Proof.
  intros Hws. unfold geocodeAddress, bind, log_call. simpl.
  unfold JS.trim. rewrite trimStart_blank by done. simpl.
  by rewrite orb_true_r.
Qed.

Lemma geocodeAddress_blank_witness :
  geocodeAddress healthy_env [32; 9; 160; 10] empty_world
  = (Throw (http BadRequestException (JS.lit "Address cannot be empty")),
     {| objects := ∅; rows := ∅;
        calls := [CallGeocode [32; 9; 160; 10]]; wire := [] |}).
Proof.
  apply (geocodeAddress_blank healthy_env [32; 9; 160; 10] empty_world).
  repeat constructor.
Defined.

(** ** ObjectStore *)

(** C7. A payload of exactly 12 MB passes the size check, and the upload
    then succeeds when the type is allowed and the store takes the object;
    one byte more, or any larger size, is refused as too large and an empty
    payload as empty, in both cases before the store is reached: nothing is
    stored and nothing goes on the wire. *)
Theorem uploadFile_size_boundary (env : Env) (file : File.t)
    (bucketType : BucketType) (w : World) :
  (File.size file = 12 * 1024 * 1024 →
   JS.array_includes allowedTypes (File.mimetype file) = true →
   validateFile file = Ok tt
   ∧ ((∀ w' c, minio_fault env w' c = None) →
      ∃ uuid w',
        uploadFile env (Some file) bucketType w
        = (Ok (BucketType_value bucketType ++ JS.lit "/" ++ uuid
               ++ path_extname env (File.originalname file)), w')
        ∧ is_Some (objects w' !! (BucketType_value bucketType,
                     uuid ++ path_extname env (File.originalname file)))))%Z
  ∧ (File.size file > 12 * 1024 * 1024 →
     uploadFile env (Some file) bucketType w
     = (Throw (http BadRequestException
                 (JS.lit "Erro no upload: Arquivo maior que 12MB")),
        {| objects := objects w; rows := rows w;
           calls := calls w ++ [CallUpload (Some file) bucketType];
           wire := wire w |}))%Z
  ∧ (File.size file = 0 →
     uploadFile env (Some file) bucketType w
     = (Throw (http BadRequestException (JS.lit "Erro no upload: Arquivo vazio")),
        {| objects := objects w; rows := rows w;
           calls := calls w ++ [CallUpload (Some file) bucketType];
           wire := wire w |}))%Z.
Proof.
  split; [|split].
  - intros Hsize Hty.
    assert (validateFile file = Ok tt) as Hv.
    { unfold validateFile. rewrite Hsize, Hty. reflexivity. }
    split; [done|]. intros Hstore.
    unfold uploadFile, bind, try_catch, log_call, of_result, randomUUID,
      minioClient_putObject, outside, world, log_wire, set_objects, ret, bind.
    rewrite Hv. simpl. rewrite Hstore. simpl.
    eexists _, _. split; [reflexivity|]. simpl.
    rewrite lookup_insert_eq. by eexists.
  - intros Hsize.
    unfold uploadFile, bind, try_catch, log_call, of_result, validateFile.
    simpl. unfold maxSize.
    destruct (Z.gtb_spec (File.size file) (12 * 1024 * 1024)) as [_|]; [|lia].
    by vm_compute.
  - intros Hsize.
    unfold uploadFile, bind, try_catch, log_call, of_result, validateFile.
    simpl. rewrite Hsize. by vm_compute.
Qed.

Lemma uploadFile_size_boundary_witness :
  validateFile (photo (12 * 1024 * 1024)) = Ok tt
  ∧ fst (uploadFile healthy_env (Some (photo (12 * 1024 * 1024 + 1)))
           LOCATIONS empty_world)
    = Throw (http BadRequestException
               (JS.lit "Erro no upload: Arquivo maior que 12MB"))
  ∧ fst (uploadFile healthy_env (Some (photo 0)) LOCATIONS empty_world)
    = Throw (http BadRequestException (JS.lit "Erro no upload: Arquivo vazio")).
Proof.
  split; [|split].
  - apply (uploadFile_size_boundary healthy_env (photo (12 * 1024 * 1024))
             LOCATIONS empty_world); reflexivity.
  - rewrite (proj1 (proj2 (uploadFile_size_boundary healthy_env
               (photo (12 * 1024 * 1024 + 1)) LOCATIONS empty_world)));
      [reflexivity | simpl; lia].
  - rewrite (proj2 (proj2 (uploadFile_size_boundary healthy_env (photo 0)
               LOCATIONS empty_world))); reflexivity.
Defined.

Lemma extract_Some (filePath b k : list N) :
  extractBucketAndFileName filePath = (Some b, Some k) →
  JS.truthy filePath = true ∧ b = BucketType_value LOCATIONS.
Proof.
  unfold extractBucketAndFileName.
  destruct (JS.truthy filePath); simpl; [|done].
  destruct (_ <? 2)%nat; [done|].
  destruct (JS.array_includes _ _) eqn:Hb; simpl; [|done].
  intros [= <- <-]. split; [done|].
  apply bool_decide_eq_true in Hb.
  unfold BucketType_values in Hb. by apply list_elem_of_singleton in Hb.
Qed.

(** Every failure of [statObject] reads as "the object is not there". *)
Lemma fileExists_absent (env : Env) (b k : list N) (w : World) :
  objects w !! (b, k) = None →
  fileExists env b k w
  = (Ok false, {| objects := objects w; rows := rows w; calls := calls w;
                  wire := wire w ++ [StatObject b k] |}).
Proof.
  intros Hnone.
  unfold fileExists, try_catch, bind, minioClient_statObject, outside, bind,
    world, log_wire. simpl.
  destruct (minio_fault env w (StatObject b k)); simpl; [done|].
  by rewrite Hnone.
Qed.

(** The run of [deleteFile] on a path that names bucket [b] and a key [k]
    that is not empty. *)
Lemma deleteFile_run (env : Env) (filePath b k : list N) (w : World) :
  extractBucketAndFileName filePath = (Some b, Some k) →
  k ≠ [] →
  let logged :=
    {| objects := objects w; rows := rows w;
       calls := calls w ++ [CallDelete filePath]; wire := wire w |} in
  let checked :=
    {| objects := objects w; rows := rows w;
       calls := calls w ++ [CallDelete filePath];
       wire := wire w ++ [StatObject b k] |} in
  deleteFile env filePath w
  = match minio_fault env logged (StatObject b k), objects w !! (b, k) with
    | None, Some _ =>
        match minio_fault env checked (RemoveObject b k) with
        | Some error =>
            (Throw (http BadRequestException
                      (JS.lit "Erro ao deletar: "
                       ++ JS.template (message error))),
             {| objects := objects w; rows := rows w;
                calls := calls w ++ [CallDelete filePath];
                wire := wire w ++ [StatObject b k; RemoveObject b k] |})
        | None =>
            (Ok tt,
             {| objects := delete (b, k) (objects w); rows := rows w;
                calls := calls w ++ [CallDelete filePath];
                wire := wire w ++ [StatObject b k; RemoveObject b k] |})
        end
    | _, _ => (Ok tt, checked)
    end.
Proof.
  intros Hpath Hk. cbv zeta.
  destruct (extract_Some _ _ _ Hpath) as [Htruthy ->].
  unfold deleteFile, bind at 1, log_call, try_catch.
  rewrite Htruthy, Hpath.
  assert (JS.truthy_opt (Some k) = true) as -> by by destruct k.
  change (JS.truthy_opt (Some (BucketType_value LOCATIONS))) with true.
  cbn [negb orb default].
  unfold fileExists, try_catch, bind, minioClient_statObject,
    minioClient_removeObject, outside, bind, world, log_wire, set_objects,
    ret, throw, id. cbn [objects rows calls wire].
  destruct (minio_fault env _ (StatObject _ k));
    cbn [objects rows calls wire negb]; [done|].
  destruct (objects w !! (BucketType_value LOCATIONS, k));
    cbn [objects rows calls wire negb]; [|done].
  destruct (minio_fault env _ (RemoveObject _ k));
    cbn [objects rows calls wire]; by rewrite <- !app_assoc.
Qed.

(** [deleteFile] on a path that it reads as bucket [b] and key [k], when
    the store has no such object. *)
Lemma deleteFile_absent (env : Env) (filePath b k : list N) (w : World) :
  extractBucketAndFileName filePath = (Some b, Some k) →
  k ≠ [] →
  objects w !! (b, k) = None →
  b ∈ BucketType_values
  ∧ deleteFile env filePath w
    = (Ok tt, {| objects := objects w; rows := rows w;
                 calls := calls w ++ [CallDelete filePath];
                 wire := wire w ++ [StatObject b k] |}).
Proof.
  intros Hpath Hk Hnone.
  destruct (extract_Some _ _ _ Hpath) as [Htruthy ->].
  split; [apply list_elem_of_singleton; done|].
  unfold deleteFile, bind at 1, log_call, try_catch.
  rewrite Htruthy, Hpath.
  assert (JS.truthy_opt (Some k) = true) as -> by by destruct k.
  change (JS.truthy_opt (Some (BucketType_value LOCATIONS))) with true.
  cbn [negb orb default].
  erewrite bind_ok; [|by apply fileExists_absent].
  reflexivity.
Qed.

(** C6, as the code has it.  Deleting an object that is not in the store
    succeeds, for the keys that survive the reading of the path.
    [deleteFile] takes a path.  For every path that it reads as a known
    bucket and a non-empty key, when the store holds no object under that
    bucket and key, the call returns normally, after one existence check
    and without a removal or any change to the store.  In particular this
    is so for the path [bucket/key] of every known bucket and every key
    that is not empty and does not end in whitespace. *)
Theorem deleteFile_missing_object (env : Env) (w : World) :
  (∀ filePath b k : list N,
     extractBucketAndFileName filePath = (Some b, Some k) →
     k ≠ [] →
     objects w !! (b, k) = None →
     b ∈ BucketType_values
     ∧ deleteFile env filePath w
       = (Ok tt, {| objects := objects w; rows := rows w;
                    calls := calls w ++ [CallDelete filePath];
                    wire := wire w ++ [StatObject b k] |}))
  ∧ (∀ (bucket : BucketType) (key : list N),
       key ≠ [] →
       JS.trimEnd key = key →
       objects w !! (BucketType_value bucket, key) = None →
       deleteFile env (BucketType_value bucket ++ JS.lit "/" ++ key) w
       = (Ok tt,
          {| objects := objects w; rows := rows w;
             calls := calls w
                      ++ [CallDelete (BucketType_value bucket ++ JS.lit "/"
                                      ++ key)];
             wire := wire w ++ [StatObject (BucketType_value bucket) key] |})).
Proof.
  split.
  - intros filePath b k. apply deleteFile_absent.
  - intros [] key Hne Htrim Hnone.
    apply (deleteFile_absent env _ (BucketType_value LOCATIONS) key);
      [|done|done].
    by apply PathFacts.extract_path.
Qed.

Lemma deleteFile_missing_object_witness :
  deleteFile healthy_env (JS.lit "locations/ghost.png") (tower_world None)
  = (Ok tt,
     {| objects := objects (tower_world None);
        rows := rows (tower_world None);
        calls := [CallDelete (JS.lit "locations/ghost.png")];
        wire := [StatObject (JS.lit "locations") (JS.lit "ghost.png")] |}).
Proof.
  apply (proj2 (deleteFile_missing_object healthy_env (tower_world None))
           LOCATIONS (JS.lit "ghost.png"));
    [done | reflexivity | by vm_compute].
Defined.

(** C6 as stated fails for the keys that the reading of the path changes.
    The store of the scenario holds [old.png] alone.  No object is named by
    a single space, and deleting it is refused as an invalid path (the
    trimmed path has nothing after the slash); likewise for the empty key.
    No object is named [old.png] followed by a space either, yet deleting
    it asks the store to remove [old.png], and fails when that removal
    does. *)
Lemma deleteFile_missing_object_counterexample :
  objects (tower_world None) !! (BucketType_value LOCATIONS, JS.lit " ") = None
  ∧ fst (deleteFile healthy_env
           (BucketType_value LOCATIONS ++ JS.lit "/" ++ JS.lit " ")
           (tower_world None))
    = Throw (http BadRequestException
               (JS.lit "Erro ao deletar: Caminho do arquivo inválido"))
  ∧ objects (tower_world None) !! (BucketType_value LOCATIONS, []) = None
  ∧ fst (deleteFile healthy_env
           (BucketType_value LOCATIONS ++ JS.lit "/" ++ [])
           (tower_world None))
    = Throw (http BadRequestException
               (JS.lit "Erro ao deletar: Caminho do arquivo inválido"))
  ∧ objects (tower_world None)
      !! (BucketType_value LOCATIONS, JS.lit "old.png ")
    = None
  ∧ fst (deleteFile sticky_store_env
           (BucketType_value LOCATIONS ++ JS.lit "/" ++ JS.lit "old.png ")
           (tower_world None))
    = Throw (http BadRequestException
               (JS.lit "Erro ao deletar: socket hang up"))
  ∧ wire (snd (deleteFile sticky_store_env
                 (BucketType_value LOCATIONS ++ JS.lit "/"
                  ++ JS.lit "old.png ")
                 (tower_world None)))
    = [ StatObject (JS.lit "locations") (JS.lit "old.png");
        RemoveObject (JS.lit "locations") (JS.lit "old.png") ].
Proof.
  repeat match goal with |- _ ∧ _ => split end; by vm_compute.
Qed.

(** ** LocationCoordinator: Create *)

(** C5. When geocoding the address fails, [create] fails with that very
    error and has done nothing else: the call log holds the geocoding call
    alone (no upload, no write to the table), and neither the store nor the
    table has changed. *)
Theorem create_geocode_failure (env : Env) (dto : CreateLocationDto.t)
    (userId : list N) (imageFile : option File.t) (w w1 : World) (e : Exn) :
  geocodeAddress env (CreateLocationDto.address dto) w = (Throw e, w1) →
  create env dto userId imageFile w = (Throw e, w1)
  ∧ calls w1 = calls w ++ [CallGeocode (CreateLocationDto.address dto)]
  ∧ objects w1 = objects w
  ∧ rows w1 = rows w.
Proof.
  intros Hgeo. split; [|split; [|split]].
  - unfold create. cbv zeta. by rewrite (bind_throw _ _ _ _ _ Hgeo).
  - pose proof (geocodeAddress_calls env (CreateLocationDto.address dto) w)
      as H. by rewrite Hgeo in H.
  - pose proof (geocodeAddress_objects env (CreateLocationDto.address dto) w)
      as H. by rewrite Hgeo in H.
  - pose proof (geocodeAddress_rows env (CreateLocationDto.address dto) w)
      as H. by rewrite Hgeo in H.
Qed.

Lemma create_geocode_failure_witness :
  fst (create offline_geocoder_env (eiffel None) (JS.lit "user-1")
         (Some (photo 4)) empty_world)
  = Throw (http InternalServerErrorException
             (JS.lit "Geocoding service failed: ENOTFOUND")).
Proof.
  rewrite (proj1 (create_geocode_failure offline_geocoder_env (eiffel None)
    (JS.lit "user-1") (Some (photo 4)) empty_world
    {| objects := ∅; rows := ∅;
       calls := [CallGeocode (JS.lit "Champ de Mars, Paris")];
       wire := [ForwardGeocode (JS.lit "Champ de Mars, Paris")] |}
    (http InternalServerErrorException
       (JS.lit "Geocoding service failed: ENOTFOUND"))
    ltac:(reflexivity))).
  reflexivity.
Defined.

(** *** The table behind the coordinator *)

Lemma prisma_create_spec (env : Env) (data : CreateData.t) (w w' : World)
    (r : Result Location.t) :
  prisma_location_create env data w = (r, w') →
  calls w' = calls w ++ [CallPersistCreate data]
  ∧ objects w' = objects w
  ∧ match r with
    | Ok location =>
        Location.image location = CreateData.image data
        ∧ rows w' = <[Location.id location := location]> (rows w)
    | Throw _ => rows w' = rows w
    end.
Proof.
  unfold prisma_location_create, prisma_call, bind, world, log_call,
    set_rows, ret, throw. simpl.
  destruct (prisma_fault env w (CallPersistCreate data)); simpl.
  - by intros [= <- <-].
  - destruct (rows w !! prisma_newId env _); simpl; by intros [= <- <-].
Qed.

Lemma prisma_update_spec (env : Env) (id : list N) (data : UpdateData.t)
    (w w' : World) (r : Result Location.t) :
  prisma_location_update env id data w = (r, w') →
  calls w' = calls w ++ [CallPersistUpdate id data]
  ∧ objects w' = objects w
  ∧ match r with
    | Ok location =>
        ∃ l, rows w !! id = Some l
             ∧ location = apply_update data l
             ∧ rows w' = <[id := location]> (rows w)
    | Throw _ => rows w' = rows w
    end.
Proof.
  unfold prisma_location_update, prisma_call, bind, world, log_call,
    set_rows, ret, throw. simpl.
  destruct (prisma_fault env w (CallPersistUpdate id data)); simpl.
  - by intros [= <- <-].
  - destruct (rows w !! id) as [l|] eqn:Hl; simpl; intros [= <- <-];
      simpl; [|done].
    repeat split. by exists l.
Qed.

Lemma findOne_spec (env : Env) (id : list N) (w w' : World)
    (r : Result Location.t) :
  findOne env id w = (r, w') →
  calls w' = calls w ++ [CallFindUnique id]
  ∧ objects w' = objects w
  ∧ rows w' = rows w
  ∧ ∀ l, r = Ok l → rows w !! id = Some l.
Proof.
  unfold findOne, prisma_location_findUnique, prisma_call, bind, world,
    log_call, ret, throw. simpl.
  destruct (prisma_fault env w (CallFindUnique id)); simpl.
  - intros [= <- <-]. done.
  - destruct (rows w !! id) as [l|] eqn:Hl; simpl; intros [= <- <-];
      simpl; repeat split; congruence.
Qed.

Lemma update_geocode_calls (env : Env) (address : option (list N))
    (w : World) :
  calls (snd (update_geocode env address w))
  = calls w ++ (if JS.truthy_opt address
                then [CallGeocode (default [] address)] else []).
Proof.
  unfold update_geocode. destruct (JS.truthy_opt address).
  - unfold bind.
    pose proof (geocodeAddress_calls env (default [] address) w) as H.
    by destruct (geocodeAddress env (default [] address) w) as [[geo|e] w1].
  - simpl. by rewrite app_nil_r.
Qed.

Lemma update_geocode_rows (env : Env) (address : option (list N)) :
  preserves rows (update_geocode env address).
Proof.
  pose proof (geocodeAddress_rows env).
  unfold update_geocode. destruct (JS.truthy_opt address); frame.
Qed.

(** A path returned by [uploadFile] is [bucket/name], never empty. *)
Lemma uploadFile_ok_truthy (env : Env) (file : option File.t)
    (b : BucketType) (w w' : World) (p : list N) :
  uploadFile env file b w = (Ok p, w') → JS.truthy p = true.
Proof.
  unfold uploadFile, bind at 1, log_call, try_catch.
  destruct file as [file|]; [|done].
  unfold bind at 1, of_result.
  destruct (validateFile file); [|done].
  unfold bind at 1. destruct (randomUUID env _) as [[uuid|e] w1]; [|done].
  unfold bind. destruct (minioClient_putObject env _ _ _ _) as [[[]|e] w2];
    [|done].
  unfold ret. intros [= <- <-]. by destruct b.
Qed.

(** [create] once the address is geocoded and the payload uploaded: what
    remains is the write to the table, and the clean-up when it fails. *)
Lemma create_after_upload (env : Env) (dto : CreateLocationDto.t)
    (userId : list N) (f : File.t) (w w1 w2 : World)
    (geo : GeocodeResult.t) (p : list N) :
  geocodeAddress env (CreateLocationDto.address dto) w = (Ok geo, w1) →
  uploadFile env (Some f) LOCATIONS w1 = (Ok p, w2) →
  create env dto userId (Some f) w
  = match prisma_location_create env
            (createData dto userId geo (Some (getFileUrl env p))) w2 with
    | (Ok location, w3) => (Ok location, w3)
    | (Throw e, w3) => (Throw e, snd (deleteFile env p w3))
    end.
Proof.
  intros Hgeo Hup. pose proof (uploadFile_ok_truthy _ _ _ _ _ _ Hup) as Hp.
  unfold create. cbv zeta. rewrite (bind_ok _ _ _ _ _ Hgeo).
  unfold with_locals, try_catch, bind, call, assign, locals, ret, throw.
  simpl. rewrite Hup. simpl. unfold createData.
  destruct (prisma_location_create env _ w2) as [[location|e] w3]; simpl;
    [done|].
  rewrite Hp. rewrite catch_and_log_ok. done.
Qed.

(** C1. Create with an address that geocodes and a payload whose upload
    succeeds, when the write to the table fails with [e]: the caller sees
    [e] itself; the call log grew by one geocoding, one Upload, the failed
    write and then one Delete of the path that Upload returned, in this
    order; the outcome of that Delete appears nowhere in the result; the
    table is as before. *)
Theorem create_compensates (env : Env) (dto : CreateLocationDto.t)
    (userId : list N) (f : File.t) (w w1 w2 w3 : World)
    (geo : GeocodeResult.t) (p : list N) (e : Exn) :
  geocodeAddress env (CreateLocationDto.address dto) w = (Ok geo, w1) →
  uploadFile env (Some f) LOCATIONS w1 = (Ok p, w2) →
  prisma_location_create env
    (createData dto userId geo (Some (getFileUrl env p))) w2 = (Throw e, w3) →
  ∃ w4,
    create env dto userId (Some f) w = (Throw e, w4)
    ∧ w4 = snd (deleteFile env p w3)
    ∧ calls w4
      = calls w
        ++ [ CallGeocode (CreateLocationDto.address dto);
             CallUpload (Some f) LOCATIONS;
             CallPersistCreate
               (createData dto userId geo (Some (getFileUrl env p)));
             CallDelete p ]
    ∧ rows w4 = rows w.
Proof.
  intros Hgeo Hup Hdb. eexists. split; [|split; [reflexivity|]].
  - rewrite (create_after_upload _ _ _ _ _ _ _ _ _ Hgeo Hup), Hdb. done.
  - pose proof (geocodeAddress_calls env (CreateLocationDto.address dto) w)
      as Hc1. rewrite Hgeo in Hc1.
    pose proof (uploadFile_calls env (Some f) LOCATIONS w1) as Hc2.
    rewrite Hup in Hc2.
    destruct (prisma_create_spec _ _ _ _ _ Hdb) as (Hc3 & _ & Hr3).
    pose proof (geocodeAddress_rows env (CreateLocationDto.address dto) w)
      as Hr1. rewrite Hgeo in Hr1.
    pose proof (uploadFile_rows env (Some f) LOCATIONS w1) as Hr2.
    rewrite Hup in Hr2. simpl in *.
    split.
    + rewrite deleteFile_calls, Hc3, Hc2, Hc1. by rewrite <- !app_assoc.
    + rewrite deleteFile_rows. congruence.
Qed.

Lemma create_compensates_witness :
  fst (create failing_env (eiffel None) (JS.lit "user-1") (Some (photo 4))
         empty_world) = Throw db_down
  ∧ fst (deleteFile failing_env
           (JS.lit "locations/3f2b8c1e-0000-4000-8000-000000000001.png")
           (snd (uploadFile failing_env (Some (photo 4)) LOCATIONS
                   (snd (geocodeAddress failing_env
                           (JS.lit "Champ de Mars, Paris") empty_world)))))
    = Throw (http BadRequestException
               (JS.lit "Erro ao deletar: socket hang up")).
Proof.
  split; [|by vm_compute].
  pose (geo := {| GeocodeResult.latitude := 48858370%Z;
                  GeocodeResult.longitude := 2294481%Z;
                  GeocodeResult.formattedAddress :=
                    Some (JS.lit "Champ de Mars, Paris") |}).
  pose (p := JS.lit "locations/3f2b8c1e-0000-4000-8000-000000000001.png").
  pose (w1 := snd (geocodeAddress failing_env
                     (CreateLocationDto.address (eiffel None)) empty_world)).
  pose (w2 := snd (uploadFile failing_env (Some (photo 4)) LOCATIONS w1)).
  pose (w3 := snd (prisma_location_create failing_env
                     (createData (eiffel None) (JS.lit "user-1") geo
                        (Some (getFileUrl failing_env p))) w2)).
  destruct (create_compensates failing_env (eiffel None) (JS.lit "user-1")
              (photo 4) empty_world w1 w2 w3 geo p db_down)
    as (w4 & -> & _); [apply run_eq; by vm_compute ..|].
  reflexivity.
Defined.



(** ** LocationCoordinator: Update *)

Lemma isMinioPath_truthy (imageUrl : list N) :
  isMinioPath imageUrl = true → JS.truthy imageUrl = true.
Proof. unfold isMinioPath. by destruct (JS.truthy imageUrl). Qed.

Lemma extractMinioPath_truthy (imageUrl : list N) :
  JS.truthy imageUrl = true → JS.truthy (extractMinioPath imageUrl) = true.
Proof.
  intros H. unfold extractMinioPath.
  by destruct (JS.includes imageUrl (JS.lit "/locations/")).
Qed.

(** [update] with a payload, once the row is found, the address (if any)
    geocoded and the payload uploaded. *)
Lemma update_after_upload (env : Env) (id : list N)
    (dto : UpdateLocationDto.t) (f : File.t) (w w0 w1 w2 : World)
    (existing : Location.t) (coordinates : option (Z * Z)) (p : list N) :
  findOne env id w = (Ok existing, w0) →
  update_geocode env (UpdateLocationDto.address dto) w0 = (Ok coordinates, w1) →
  uploadFile env (Some f) LOCATIONS w1 = (Ok p, w2) →
  update env id dto (Some f) w
  = match prisma_location_update env id
            (patchData dto coordinates (Some (getFileUrl env p))) w2 with
    | (Ok location, w3) =>
        (Ok location,
         if JS.truthy_opt (Location.image existing)
            && isMinioPath (default [] (Location.image existing))
         then snd (deleteFile env
                     (extractMinioPath (default [] (Location.image existing)))
                     w3)
         else w3)
    | (Throw e, w3) => (Throw e, snd (deleteFile env p w3))
    end.
Proof.
  intros Hfind Hgeo Hup.
  pose proof (uploadFile_ok_truthy _ _ _ _ _ _ Hup) as Hp.
  unfold update. rewrite (bind_ok _ _ _ _ _ Hfind). cbv zeta.
  unfold with_locals, try_catch, bind, call, assign, locals, ret, throw.
  simpl. rewrite Hgeo. simpl. rewrite Hup. simpl.
  destruct (JS.truthy_opt (Location.image existing)
            && isMinioPath (default [] (Location.image existing))) eqn:Hold;
    simpl; unfold patchData, updateData; simpl;
    destruct (prisma_location_update env id _ w2) as [[location|e] w3];
    simpl; rewrite ?Hp, ?catch_and_log_ok; simpl; try done.
  apply andb_true_iff in Hold as [Ht Hm].
  destruct (Location.image existing) as [img|]; [|done]. simpl in *.
  rewrite (extractMinioPath_truthy _ Ht), catch_and_log_ok. done.
Qed.

(** [update] without a payload, once the row is found and the address (if
    any) geocoded. *)
Lemma update_after_geocode (env : Env) (id : list N)
    (dto : UpdateLocationDto.t) (w w0 w1 : World)
    (existing : Location.t) (coordinates : option (Z * Z)) :
  findOne env id w = (Ok existing, w0) →
  update_geocode env (UpdateLocationDto.address dto) w0 = (Ok coordinates, w1) →
  update env id dto None w
  = let clearing :=
      bool_decide (UpdateLocationDto.keepImage dto = Some false)
      && JS.truthy_opt (Location.image existing) in
    match prisma_location_update env id
            (patchData dto coordinates (if clearing then Some [] else None))
            w1 with
    | (Ok location, w2) =>
        (Ok location,
         if clearing && isMinioPath (default [] (Location.image existing))
         then snd (deleteFile env
                     (extractMinioPath (default [] (Location.image existing)))
                     w2)
         else w2)
    | (Throw e, w2) => (Throw e, w2)
    end.
Proof.
  intros Hfind Hgeo.
  unfold update. rewrite (bind_ok _ _ _ _ _ Hfind). cbv zeta.
  unfold with_locals, try_catch, bind, call, assign, locals, ret, throw.
  simpl. rewrite Hgeo. simpl.
  destruct (bool_decide (UpdateLocationDto.keepImage dto = Some false)
            && JS.truthy_opt (Location.image existing)) eqn:Hclear; simpl.
  - apply andb_true_iff in Hclear as [_ Ht].
    destruct (Location.image existing) as [img|]; [|done]. simpl in *.
    destruct (isMinioPath img) eqn:Hm; simpl; unfold patchData, updateData;
      simpl;
      destruct (prisma_location_update env id _ w1) as [[location|e] w2];
      simpl; try done.
    rewrite (extractMinioPath_truthy _ Ht), catch_and_log_ok. done.
  - unfold patchData, updateData; simpl.
    by destruct (prisma_location_update env id _ w1) as [[location|e] w2].
Qed.

(** The call log when [update] reaches its write. *)
Lemma update_prologue_calls (env : Env) (id : list N)
    (dto : UpdateLocationDto.t) (w w0 w1 : World) (existing : Location.t)
    (coordinates : option (Z * Z)) :
  findOne env id w = (Ok existing, w0) →
  update_geocode env (UpdateLocationDto.address dto) w0 = (Ok coordinates, w1) →
  calls w1 = calls w ++ update_prologue id dto
  ∧ rows w1 !! id = Some existing.
Proof.
  intros Hfind Hgeo.
  destruct (findOne_spec _ _ _ _ _ Hfind) as (Hc0 & _ & Hr0 & Hl).
  pose proof (update_geocode_calls env (UpdateLocationDto.address dto) w0)
    as Hc1.
  pose proof (update_geocode_rows env (UpdateLocationDto.address dto) w0)
    as Hr1.
  rewrite Hgeo in Hc1, Hr1. simpl in *. split.
  - rewrite Hc1, Hc0. unfold update_prologue. by rewrite <- app_assoc.
  - rewrite Hr1, Hr0. by apply Hl.
Qed.

Lemma deletes_app (l1 l2 : list Call) :
  deletes (l1 ++ l2) = deletes l1 ++ deletes l2.
Proof. apply omap_app. Qed.

Lemma deletes_update_prologue (id : list N) (dto : UpdateLocationDto.t) :
  deletes (update_prologue id dto) = [].
Proof.
  unfold update_prologue.
  by destruct (JS.truthy_opt (UpdateLocationDto.address dto)).
Qed.

(** C2. Update with a payload that was uploaded: whatever the write to the
    table gives, a row or a failure, is what the caller gets, unchanged.
    When the write fails, one Delete follows for the path of the new blob;
    when it succeeds and the old image was a reference of the store, one
    Delete follows for the old path.  In both cases the world after the
    call is the world after that Delete, and its outcome, success or
    failure, is not part of the result. *)
Theorem update_outcome_is_write_outcome (env : Env) (id : list N)
    (dto : UpdateLocationDto.t) (f : File.t) (w w0 w1 w2 w3 : World)
    (existing : Location.t) (coordinates : option (Z * Z)) (p : list N)
    (r : Result Location.t) :
  findOne env id w = (Ok existing, w0) →
  update_geocode env (UpdateLocationDto.address dto) w0 = (Ok coordinates, w1) →
  uploadFile env (Some f) LOCATIONS w1 = (Ok p, w2) →
  prisma_location_update env id
    (patchData dto coordinates (Some (getFileUrl env p))) w2 = (r, w3) →
  let cleanup :=
    match r with
    | Throw _ => Some p
    | Ok _ =>
        if JS.truthy_opt (Location.image existing)
           && isMinioPath (default [] (Location.image existing))
        then Some (extractMinioPath (default [] (Location.image existing)))
        else None
    end in
  ∃ w4,
    update env id dto (Some f) w = (r, w4)
    ∧ w4 = match cleanup with
           | Some path => snd (deleteFile env path w3)
           | None => w3
           end
    ∧ calls w4
      = calls w ++ update_prologue id dto
        ++ [ CallUpload (Some f) LOCATIONS;
             CallPersistUpdate id
               (patchData dto coordinates (Some (getFileUrl env p))) ]
        ++ match cleanup with
           | Some path => [CallDelete path]
           | None => []
           end.
Proof.
  intros Hfind Hgeo Hup Hdb cleanup. eexists.
  split; [|split; [reflexivity|]].
  - rewrite (update_after_upload _ _ _ _ _ _ _ _ _ _ _ Hfind Hgeo Hup), Hdb.
    subst cleanup. destruct r as [location|e]; [|done].
    by destruct (_ && _).
  - destruct (update_prologue_calls _ _ _ _ _ _ _ _ Hfind Hgeo) as [Hc1 _].
    pose proof (uploadFile_calls env (Some f) LOCATIONS w1) as Hc2.
    rewrite Hup in Hc2. simpl in Hc2.
    destruct (prisma_update_spec _ _ _ _ _ _ Hdb) as (Hc3 & _).
    destruct cleanup as [path|].
    + rewrite deleteFile_calls, Hc3, Hc2, Hc1. by rewrite <- !app_assoc.
    + rewrite Hc3, Hc2, Hc1. by rewrite <- !app_assoc.
Qed.

Lemma update_outcome_is_write_outcome_witness :
  fst (update failing_env (JS.lit "loc-7") (patch None None) (Some (photo 4))
         (tower_world None)) = Throw db_down
  ∧ fst (deleteFile failing_env
           (JS.lit "locations/3f2b8c1e-0000-4000-8000-000000000000.png")
           (snd (uploadFile failing_env (Some (photo 4)) LOCATIONS
                   (snd (findOne failing_env (JS.lit "loc-7")
                           (tower_world None))))))
    = Throw (http BadRequestException
               (JS.lit "Erro ao deletar: socket hang up")).
Proof.
  split; [|by vm_compute].
  pose (p := JS.lit "locations/3f2b8c1e-0000-4000-8000-000000000000.png").
  pose (w0 := snd (findOne failing_env (JS.lit "loc-7") (tower_world None))).
  pose (w1 := snd (update_geocode failing_env
                     (UpdateLocationDto.address (patch None None)) w0)).
  pose (w2 := snd (uploadFile failing_env (Some (photo 4)) LOCATIONS w1)).
  pose (w3 := snd (prisma_location_update failing_env (JS.lit "loc-7")
                     (patchData (patch None None) None
                        (Some (getFileUrl failing_env p))) w2)).
  destruct (update_outcome_is_write_outcome failing_env (JS.lit "loc-7")
              (patch None None) (photo 4) (tower_world None) w0 w1 w2 w3
              (tower_row None) None p (Throw db_down))
    as (w4 & -> & _); [apply run_eq; by vm_compute ..|].
  reflexivity.
Defined.

(** Update with [keepImage = false] and no payload, on a row whose image
    [isMinioPath] takes for a reference of the store, when the write to
    the table succeeds: the data written sets the image to the empty
    string, the row returned and stored has the empty image, and the world
    afterwards is the one after [deleteFile] of the path that
    [extractMinioPath] reads off the old image. *)
Lemma update_clear_run (env : Env) (id : list N)
    (dto : UpdateLocationDto.t) (w w0 w1 w2 : World)
    (existing location : Location.t) (coordinates : option (Z * Z))
    (img : list N) :
  UpdateLocationDto.keepImage dto = Some false →
  findOne env id w = (Ok existing, w0) →
  Location.image existing = Some img →
  isMinioPath img = true →
  update_geocode env (UpdateLocationDto.address dto) w0 = (Ok coordinates, w1) →
  prisma_location_update env id (patchData dto coordinates (Some [])) w1
  = (Ok location, w2) →
  update env id dto None w
  = (Ok location, snd (deleteFile env (extractMinioPath img) w2))
  ∧ Location.image location = Some []
  ∧ rows w2 !! id = Some location
  ∧ calls w2
    = calls w ++ update_prologue id dto
      ++ [CallPersistUpdate id (patchData dto coordinates (Some []))].
Proof.
  intros Hkeep Hfind Himg Hminio Hgeo Hdb.
  pose proof (isMinioPath_truthy _ Hminio) as Ht.
  destruct (update_prologue_calls _ _ _ _ _ _ _ _ Hfind Hgeo) as [Hc1 _].
  destruct (prisma_update_spec _ _ _ _ _ _ Hdb) as (Hc2 & _ & l & _ & -> & Hr2).
  split; [|split; [|split]].
  - rewrite (update_after_geocode _ _ _ _ _ _ _ _ Hfind Hgeo).
    rewrite Hkeep, Himg. simpl. rewrite Ht, Hminio. simpl.
    by rewrite Hdb.
  - done.
  - rewrite Hr2. apply lookup_insert_eq.
  - rewrite Hc2, Hc1. by rewrite <- !app_assoc.
Qed.

(** C3, as the code has it.  Update with [keepImage = false] and no
    payload, on a row whose image is the public URL that [getFileUrl]
    builds for the blob [key] of a known bucket, when the write to the
    table succeeds: the data written sets the image to the empty string,
    the row returned and stored has the empty image, and the call log ends
    with that write followed by exactly one Delete, for the path
    [bucket/key] of that blob, which [deleteFile] reads as that bucket and
    that key: the store is asked for the status of that object and, at
    most, for its removal, and loses no other object.  This is for the
    keys and the configurations for which a public URL reads back: the key
    is not empty, does not end in whitespace and does not contain
    [/locations/], and no [/locations/] occurs in
    [{protocol}://{endpoint}{:port}/locations]. *)
Theorem update_keepImage_false_clears (env : Env) (id : list N)
    (dto : UpdateLocationDto.t) (w w0 w1 w2 : World)
    (existing location : Location.t) (coordinates : option (Z * Z))
    (b : BucketType) (key : list N) :
  UpdateLocationDto.keepImage dto = Some false →
  findOne env id w = (Ok existing, w0) →
  Location.image existing = Some (buildURL env (BucketType_value b) key) →
  JS.includes (origin env ++ JS.lit "/locations") (JS.lit "/locations/")
  = false →
  JS.includes key (JS.lit "/locations/") = false →
  key ≠ [] →
  JS.trimEnd key = key →
  update_geocode env (UpdateLocationDto.address dto) w0 = (Ok coordinates, w1) →
  prisma_location_update env id (patchData dto coordinates (Some [])) w1
  = (Ok location, w2) →
  ∃ w3,
    update env id dto None w = (Ok location, w3)
    ∧ Location.image location = Some []
    ∧ rows w3 !! id = Some location
    ∧ calls w3
      = calls w ++ update_prologue id dto
        ++ [ CallPersistUpdate id (patchData dto coordinates (Some []));
             CallDelete (BucketType_value b ++ JS.lit "/" ++ key) ]
    ∧ deletes (calls w3)
      = deletes (calls w) ++ [BucketType_value b ++ JS.lit "/" ++ key]
    ∧ extractBucketAndFileName (BucketType_value b ++ JS.lit "/" ++ key)
      = (Some (BucketType_value b), Some key)
    ∧ (wire w3 = wire w2 ++ [StatObject (BucketType_value b) key]
       ∨ wire w3
         = wire w2 ++ [ StatObject (BucketType_value b) key;
                        RemoveObject (BucketType_value b) key ])
    ∧ (objects w3 = objects w2
       ∨ objects w3 = delete (BucketType_value b, key) (objects w2)).
Proof.
  intros Hkeep Hfind Himg Horigin Hkey Hne Htrim Hgeo Hdb.
  destruct b.
  pose proof (PathFacts.extractMinioPath_buildURL env key
                Horigin Hkey Hne Htrim) as Hpath.
  assert (isMinioPath (buildURL env (BucketType_value LOCATIONS) key) = true)
    as Hminio.
  { unfold buildURL.
    change (BucketType_value LOCATIONS ++ JS.lit "/" ++ key)
      with (JS.lit "locations/" ++ key).
    rewrite PathFacts.getFileUrl_path by done.
    apply PathFacts.isMinioPath_url. }
  assert (extractBucketAndFileName
            (BucketType_value LOCATIONS ++ JS.lit "/" ++ key)
          = (Some (BucketType_value LOCATIONS), Some key)) as Hread
    by by apply PathFacts.extract_path.
  destruct (update_clear_run env id dto w w0 w1 w2 existing location
              coordinates _ Hkeep Hfind Himg Hminio Hgeo Hdb)
    as (Hrun & Himage & Hrow & Hc2).
  rewrite Hpath in Hrun.
  pose proof (deleteFile_run env _ _ key w2 Hread Hne) as Hdel.
  cbv zeta in Hdel.
  eexists. split; [exact Hrun|]. split; [exact Himage|].
  split; [by rewrite deleteFile_rows|].
  assert (calls (snd (deleteFile env
                        (BucketType_value LOCATIONS ++ JS.lit "/" ++ key) w2))
          = calls w ++ update_prologue id dto
            ++ [ CallPersistUpdate id (patchData dto coordinates (Some []));
                 CallDelete (BucketType_value LOCATIONS ++ JS.lit "/" ++ key) ])
    as Hlog.
  { rewrite deleteFile_calls, Hc2. by rewrite <- !app_assoc. }
  split; [exact Hlog|].
  split; [by rewrite Hlog, !deletes_app, deletes_update_prologue|].
  split; [exact Hread|].
  rewrite Hdel.
  destruct (minio_fault env _ (StatObject _ key));
    [split; by left|].
  destruct (objects w2 !! (BucketType_value LOCATIONS, key));
    [|split; by left].
  destruct (minio_fault env _ (RemoveObject _ key)).
  - split; [by right | by left].
  - split; by right.
Qed.

Lemma update_keepImage_false_clears_witness :
  Location.image <$>
    fst (update sticky_store_env (JS.lit "loc-7") (patch None (Some false))
           None
           (tower_world
              (Some (JS.lit "http://localhost:9000/locations/old.png"))))
  = Ok (Some [])
  ∧ deletes
      (calls (snd (update sticky_store_env (JS.lit "loc-7")
                     (patch None (Some false)) None
                     (tower_world
                        (Some (JS.lit "http://localhost:9000/locations/old.png"))))))
    = [JS.lit "locations/old.png"].
Proof.
  pose (img := JS.lit "http://localhost:9000/locations/old.png").
  pose (dto := patch None (Some false)).
  pose (w0 := snd (findOne sticky_store_env (JS.lit "loc-7")
                     (tower_world (Some img)))).
  pose (w1 := snd (update_geocode sticky_store_env
                     (UpdateLocationDto.address dto) w0)).
  pose (data := patchData dto None (Some [])).
  pose (w2 := snd (prisma_location_update sticky_store_env (JS.lit "loc-7")
                     data w1)).
  destruct (update_keepImage_false_clears sticky_store_env (JS.lit "loc-7")
              dto (tower_world (Some img)) w0 w1 w2 (tower_row (Some img))
              (apply_update data (tower_row (Some img))) None
              LOCATIONS (JS.lit "old.png"))
    as (w3 & Hrun & _ & _ & _ & Hdeletes & _);
    [ reflexivity | apply run_eq; by vm_compute | by vm_compute
    | by vm_compute | by vm_compute | done | by vm_compute
    | apply run_eq; by vm_compute | apply run_eq; by vm_compute | ].
  fold img dto. rewrite Hrun. split; [by vm_compute|].
  cbn [snd]. rewrite Hdeletes. by vm_compute.
Defined.

(** C3 as stated fails where a public URL does not read back.  With MinIO
    reachable as host [locations] on port 80, the public URL of the blob
    [old.png] is [http://locations/locations/old.png].  On a row with that
    image the update clears the image, but its one Delete is for the path
    [locations/locations/old.png], the key [locations/old.png], and the
    blob [old.png] stays in the store. *)
Lemma update_keepImage_false_clears_counterexample :
  buildURL locations_host_env (BucketType_value LOCATIONS) (JS.lit "old.png")
  = JS.lit "http://locations/locations/old.png"
  ∧ isMinioPath (JS.lit "http://locations/locations/old.png") = true
  ∧ objects
      (tower_world (Some (JS.lit "http://locations/locations/old.png")))
      !! (JS.lit "locations", JS.lit "old.png")
    ≠ None
  ∧ Location.image <$>
      fst (update locations_host_env (JS.lit "loc-7")
             (patch None (Some false)) None
             (tower_world
                (Some (JS.lit "http://locations/locations/old.png"))))
    = Ok (Some [])
  ∧ deletes
      (calls (snd (update locations_host_env (JS.lit "loc-7")
                     (patch None (Some false)) None
                     (tower_world
                        (Some (JS.lit "http://locations/locations/old.png"))))))
    = [JS.lit "locations/locations/old.png"]
  ∧ deletes
      (calls (snd (update locations_host_env (JS.lit "loc-7")
                     (patch None (Some false)) None
                     (tower_world
                        (Some (JS.lit "http://locations/locations/old.png"))))))
    ≠ [BucketType_value LOCATIONS ++ JS.lit "/" ++ JS.lit "old.png"]
  ∧ wire (snd (update locations_host_env (JS.lit "loc-7")
                 (patch None (Some false)) None
                 (tower_world
                    (Some (JS.lit "http://locations/locations/old.png")))))
    = [StatObject (JS.lit "locations") (JS.lit "locations/old.png")]
  ∧ objects
      (snd (update locations_host_env (JS.lit "loc-7")
              (patch None (Some false)) None
              (tower_world
                 (Some (JS.lit "http://locations/locations/old.png")))))
      !! (JS.lit "locations", JS.lit "old.png")
    ≠ None.
Proof.
  repeat match goal with |- _ ∧ _ => split end; by vm_compute.
Qed.

(** C10, as the code has it.  Update with [keepImage = false] and no
    payload, on a row without an image (null or the empty string), when the
    write to the table succeeds: the coordinator adds no image of its own
    to the data it writes, so no empty string is written, and it calls no
    Delete; the data carries the image field of the request itself.  The
    stored image therefore stays as it was when the request has no image
    field, and becomes the requested URL when it has one. *)
Theorem update_nothing_to_clear (env : Env) (id : list N)
    (dto : UpdateLocationDto.t) (w w0 w1 w2 : World)
    (existing location : Location.t) (coordinates : option (Z * Z)) :
  UpdateLocationDto.keepImage dto = Some false →
  findOne env id w = (Ok existing, w0) →
  JS.truthy_opt (Location.image existing) = false →
  update_geocode env (UpdateLocationDto.address dto) w0 = (Ok coordinates, w1) →
  prisma_location_update env id (patchData dto coordinates None) w1
  = (Ok location, w2) →
  update env id dto None w = (Ok location, w2)
  ∧ UpdateData.image (patchData dto coordinates None)
    = UpdateLocationDto.image dto
  ∧ Location.image location
    = match UpdateLocationDto.image dto with
      | Some url => Some url
      | None => Location.image existing
      end
  ∧ rows w2 !! id = Some location
  ∧ calls w2
    = calls w ++ update_prologue id dto
      ++ [CallPersistUpdate id (patchData dto coordinates None)]
  ∧ deletes (calls w2) = deletes (calls w).
Proof.
  intros Hkeep Hfind Himg Hgeo Hdb.
  destruct (update_prologue_calls _ _ _ _ _ _ _ _ Hfind Hgeo) as [Hc1 Hrow].
  destruct (prisma_update_spec _ _ _ _ _ _ Hdb)
    as (Hc2 & _ & l & Hl & -> & Hr2).
  rewrite Hrow in Hl. injection Hl as <-.
  split; [|split; [|split; [|split; [|split]]]];
    [| | | | |rewrite Hc2, Hc1, !deletes_app, deletes_update_prologue;
              simpl; by rewrite !app_nil_r].
  - rewrite (update_after_geocode _ _ _ _ _ _ _ _ Hfind Hgeo).
    rewrite Himg, andb_false_r. simpl. by rewrite Hdb.
  - done.
  - done.
  - rewrite Hr2. apply lookup_insert_eq.
  - rewrite Hc2, Hc1. by rewrite <- app_assoc.
Qed.

Lemma update_nothing_to_clear_witness :
  Location.image <$>
    fst (update healthy_env (JS.lit "loc-7") (patch None (Some false)) None
           (tower_world (Some [])))
  = Ok (Some [])
  ∧ calls (snd (update healthy_env (JS.lit "loc-7") (patch None (Some false))
                  None (tower_world (Some []))))
    = [ CallFindUnique (JS.lit "loc-7");
        CallPersistUpdate (JS.lit "loc-7")
          (patchData (patch None (Some false)) None None) ].
Proof.
  pose (dto := patch None (Some false)).
  pose (w0 := snd (findOne healthy_env (JS.lit "loc-7")
                     (tower_world (Some [])))).
  pose (w1 := snd (update_geocode healthy_env
                     (UpdateLocationDto.address dto) w0)).
  pose (data := patchData dto None None).
  pose (w2 := snd (prisma_location_update healthy_env (JS.lit "loc-7")
                     data w1)).
  destruct (update_nothing_to_clear healthy_env (JS.lit "loc-7") dto
              (tower_world (Some [])) w0 w1 w2 (tower_row (Some []))
              (apply_update data (tower_row (Some []))) None)
    as (Hrun & _ & _ & _ & Hcalls & _);
    [ reflexivity | apply run_eq; by vm_compute | reflexivity
    | apply run_eq; by vm_compute | apply run_eq; by vm_compute | ].
  fold dto. rewrite Hrun. split; [by vm_compute|].
  cbn [snd]. rewrite Hcalls. by vm_compute.
Defined.

(** C10 as stated fails: the row has no image, the request says
    [keepImage = false] and carries an image URL among its other fields;
    after the update the stored image is that URL. *)
Lemma update_nothing_to_clear_counterexample :
  UpdateLocationDto.keepImage
    (patch (Some (JS.lit "https://example.com/image.jpg")) (Some false))
  = Some false
  ∧ Location.image <$> rows (tower_world None) !! JS.lit "loc-7" = Some None
  ∧ Location.image <$>
      rows (snd (update healthy_env (JS.lit "loc-7")
                   (patch (Some (JS.lit "https://example.com/image.jpg"))
                      (Some false))
                   None (tower_world None)))
      !! JS.lit "loc-7"
    = Some (Some (JS.lit "https://example.com/image.jpg"))
  ∧ Location.image <$>
      rows (snd (update healthy_env (JS.lit "loc-7")
                   (patch (Some (JS.lit "https://example.com/image.jpg"))
                      (Some false))
                   None (tower_world None)))
      !! JS.lit "loc-7"
    ≠ Location.image <$> rows (tower_world None) !! JS.lit "loc-7".
Proof. repeat split; by vm_compute. Qed.

(** ** Public URLs *)

(** C4, as the code has it.  Building the public URL of [bucket/key] and
    reading it back gives bucket and key again, provided that the key is
    not empty, does not end in whitespace (paths are trimmed) and does not
    contain [/locations/], and that the text [/locations/] that
    [getFileUrl] writes is the first one in the URL, that is, none occurs
    in [{protocol}://{endpoint}{:port}/locations]. *)
Theorem parseURL_buildURL (env : Env) (b : BucketType) (key : list N) :
  JS.includes (origin env ++ JS.lit "/locations") (JS.lit "/locations/")
  = false →
  JS.includes key (JS.lit "/locations/") = false →
  key ≠ [] →
  JS.trimEnd key = key →
  parseURL (buildURL env (BucketType_value b) key)
  = Some (BucketType_value b, key).
Proof.
  intros Horigin Hkey Hne Htrim. destruct b. unfold buildURL.
  change (BucketType_value LOCATIONS ++ JS.lit "/" ++ key)
    with (JS.lit "locations/" ++ key).
  rewrite PathFacts.getFileUrl_path by done.
  unfold parseURL.
  rewrite PathFacts.isMinioPath_url, PathFacts.extractMinioPath_url by done.
  rewrite PathFacts.extract_path by done.
  assert (JS.truthy_opt (Some key) = true) as -> by by destruct key.
  reflexivity.
Qed.

Lemma parseURL_buildURL_witness :
  parseURL (buildURL healthy_env (BucketType_value LOCATIONS)
              (JS.lit "3f2b8c1e-0000-4000-8000-000000000001.png"))
  = Some (BucketType_value LOCATIONS,
          JS.lit "3f2b8c1e-0000-4000-8000-000000000001.png").
Proof.
  apply (parseURL_buildURL healthy_env LOCATIONS
           (JS.lit "3f2b8c1e-0000-4000-8000-000000000001.png"));
    by vm_compute.
Defined.

(** C4 as stated fails.  With MinIO reachable as host [locations] on port
    80 the URL of [locations/a.png] is [http://locations/locations/a.png],
    and reading it back gives the key [locations/a.png].  And on
    [localhost:9000]: a key that ends in a space comes back without it, a
    key that contains [/locations/] comes back cut, and the empty key has
    the empty URL, which is not read back at all. *)
Lemma parseURL_buildURL_counterexample :
  buildURL locations_host_env (BucketType_value LOCATIONS) (JS.lit "a.png")
  = JS.lit "http://locations/locations/a.png"
  ∧ parseURL (buildURL locations_host_env (BucketType_value LOCATIONS)
                (JS.lit "a.png"))
    = Some (JS.lit "locations", JS.lit "locations/a.png")
  ∧ parseURL (buildURL locations_host_env (BucketType_value LOCATIONS)
                (JS.lit "a.png"))
    ≠ Some (BucketType_value LOCATIONS, JS.lit "a.png")
  ∧ parseURL (buildURL healthy_env (BucketType_value LOCATIONS)
                (JS.lit "a.png "))
    = Some (JS.lit "locations", JS.lit "a.png")
  ∧ parseURL (buildURL healthy_env (BucketType_value LOCATIONS)
                (JS.lit "x/locations/y.png"))
    = Some (JS.lit "locations", JS.lit "x")
  ∧ parseURL (buildURL healthy_env (BucketType_value LOCATIONS) []) = None.
Proof. repeat split; by vm_compute. Qed.

(** ** The earlier revisions *)

(** The earlier [create] has no clean-up: when the write fails after an
    upload, the error is passed on and no Delete is called. *)
Remark earlier_create_leaves_blob (env : Env) (dto : CreateLocationDto.t)
    (userId : list N) (f : File.t) (w w1 w2 w3 : World)
    (geo : GeocodeResult.t) (p : list N) (e : Exn) :
  geocodeAddress env (CreateLocationDto.address dto) w = (Ok geo, w1) →
  uploadFile env (Some f) LOCATIONS w1 = (Ok p, w2) →
  prisma_location_create env
    (createData dto userId geo (Some (getFileUrl env p))) w2 = (Throw e, w3) →
  Earlier.create env dto userId (Some f) w = (Throw e, w3)
  ∧ calls w3
    = calls w
      ++ [ CallGeocode (CreateLocationDto.address dto);
           CallUpload (Some f) LOCATIONS;
           CallPersistCreate
             (createData dto userId geo (Some (getFileUrl env p))) ].
Proof.
  intros Hgeo Hup Hdb. split.
  - unfold Earlier.create. cbv zeta. rewrite (bind_ok _ _ _ _ _ Hgeo).
    rewrite (bind_ok _ _ w1 (Some (getFileUrl env p)) w2);
      [|by rewrite (bind_ok _ _ _ _ _ Hup)].
    unfold createData in Hdb. by rewrite (bind_throw _ _ _ _ _ Hdb).
  - pose proof (geocodeAddress_calls env (CreateLocationDto.address dto) w)
      as Hc1. rewrite Hgeo in Hc1.
    pose proof (uploadFile_calls env (Some f) LOCATIONS w1) as Hc2.
    rewrite Hup in Hc2.
    destruct (prisma_create_spec _ _ _ _ _ Hdb) as (Hc3 & _).
    simpl in *. rewrite Hc3, Hc2, Hc1. by rewrite <- !app_assoc.
Qed.

(** The earlier [geocodeAddress] sends every address upstream, the empty
    one included. *)
Remark earlier_geocodeAddress_asks_upstream (env : Env) (address : list N)
    (w : World) :
  wire (snd (Earlier.geocodeAddress env address w))
  = wire w ++ [ForwardGeocode address].
Proof.
  unfold Earlier.geocodeAddress, bind, try_catch,
    geocodingClient_forwardGeocode, bind, world, log_wire, log_call,
    of_result, throw, ret. simpl.
  destruct (mapbox_send env _ address) as [[[[|feature features]|]]|e];
    simpl; try done.
  by destruct (Feature.center feature).
Qed.

(** * Further properties *)

(** ** MapboxService.geocodeAddress *)

Lemma not_blank_guard (address : list N) :
  JS.trim address ≠ [] →
  negb (JS.truthy address) || (length (JS.trim address) =? 0)%nat = false.
Proof.
  intros H. destruct address as [|c s]; [done|]. simpl negb.
  by destruct (JS.trim (c :: s)).
Qed.

(** The run of [geocodeAddress] on an address that is not blank, in terms
    of the reply of the upstream. *)
Lemma geocodeAddress_run (env : Env) (address : list N) (w : World) :
  JS.trim address ≠ [] →
  geocodeAddress env address w
  = let asked :=
      {| objects := objects w; rows := rows w;
         calls := calls w ++ [CallGeocode address];
         wire := wire w ++ [ForwardGeocode (JS.trim address)] |} in
    match mapbox_send env
            {| objects := objects w; rows := rows w;
               calls := calls w ++ [CallGeocode address]; wire := wire w |}
            (JS.trim address) with
    | Ok response =>
        match GeocodeResponse.features response with
        | None | Some [] =>
            (Throw (http BadRequestException
                      (JS.lit "Address not found: " ++ address)), asked)
        | Some (feature :: _) =>
            (Ok {| GeocodeResult.latitude := snd (Feature.center feature);
                   GeocodeResult.longitude := fst (Feature.center feature);
                   GeocodeResult.formattedAddress :=
                     Some (Feature.place_name feature) |}, asked)
        end
    | Throw error =>
        (Throw (if instanceof_BadRequestException error then error
                else http InternalServerErrorException
                       (JS.lit "Geocoding service failed: "
                        ++ (if instanceof_Error error
                            then JS.template (message error)
                            else JS.lit "Unknown error"))), asked)
    end.
Proof.
  intros Hnb. unfold geocodeAddress, bind at 1, log_call.
  rewrite (not_blank_guard _ Hnb).
  unfold try_catch, bind, geocodingClient_forwardGeocode, bind, world,
    log_wire, of_result, throw, ret. cbn [objects rows calls wire].
  destruct (mapbox_send env _ (JS.trim address)) as [[[[|feature rest]|]]|e];
    cbn [GeocodeResponse.features]; try reflexivity.
  - by destruct (Feature.center feature).
  - by destruct (instanceof_BadRequestException e).
Qed.

(** X1. An address that is not blank and for which the upstream has
    matches is resolved to the first match: its centre is
    [longitude, latitude], handed back as latitude and longitude with the
    place name; the upstream was asked once, with the trimmed address. *)
Theorem geocodeAddress_first_match (env : Env) (address : list N)
    (w : World) (feature : Feature.t) (others : list Feature.t) :
  JS.trim address ≠ [] →
  mapbox_send env
    {| objects := objects w; rows := rows w;
       calls := calls w ++ [CallGeocode address]; wire := wire w |}
    (JS.trim address)
  = Ok {| GeocodeResponse.features := Some (feature :: others) |} →
  geocodeAddress env address w
  = (Ok {| GeocodeResult.latitude := snd (Feature.center feature);
           GeocodeResult.longitude := fst (Feature.center feature);
           GeocodeResult.formattedAddress := Some (Feature.place_name feature) |},
     {| objects := objects w; rows := rows w;
        calls := calls w ++ [CallGeocode address];
        wire := wire w ++ [ForwardGeocode (JS.trim address)] |}).
Proof. intros Hnb Hup. by rewrite geocodeAddress_run, Hup. Qed.

Lemma geocodeAddress_first_match_witness :
  geocodeAddress healthy_env (JS.lit "  Champ de Mars, Paris ") empty_world
  = (Ok {| GeocodeResult.latitude := 48858370;
           GeocodeResult.longitude := 2294481;
           GeocodeResult.formattedAddress :=
             Some (JS.lit "Champ de Mars, Paris") |},
     {| objects := ∅; rows := ∅;
        calls := [CallGeocode (JS.lit "  Champ de Mars, Paris ")];
        wire := [ForwardGeocode (JS.lit "Champ de Mars, Paris")] |}).
Proof.
  apply (geocodeAddress_first_match healthy_env
           (JS.lit "  Champ de Mars, Paris ") empty_world paris []);
    [by vm_compute | reflexivity].
Defined.

(** X2. When the upstream replies without matches (an empty list, or no
    list at all) for an address that is not blank, [geocodeAddress] throws
    a bad-request error whose message is "Address not found: " followed by
    the address as it was given, untrimmed. *)
Theorem geocodeAddress_no_match (env : Env) (address : list N) (w : World)
    (response : GeocodeResponse.t) :
  JS.trim address ≠ [] →
  mapbox_send env
    {| objects := objects w; rows := rows w;
       calls := calls w ++ [CallGeocode address]; wire := wire w |}
    (JS.trim address)
  = Ok response →
  GeocodeResponse.features response = None
  ∨ GeocodeResponse.features response = Some [] →
  geocodeAddress env address w
  = (Throw (http BadRequestException (JS.lit "Address not found: " ++ address)),
     {| objects := objects w; rows := rows w;
        calls := calls w ++ [CallGeocode address];
        wire := wire w ++ [ForwardGeocode (JS.trim address)] |}).
Proof.
  intros Hnb Hup Hnone. rewrite geocodeAddress_run, Hup by done.
  by destruct Hnone as [-> | ->].
Qed.

Lemma geocodeAddress_no_match_witness :
  fst (geocodeAddress nowhere_env (JS.lit " Atlantis ") empty_world)
  = Throw (http BadRequestException (JS.lit "Address not found:  Atlantis ")).
Proof.
  rewrite (geocodeAddress_no_match nowhere_env (JS.lit " Atlantis ")
             empty_world {| GeocodeResponse.features := Some [] |});
    [by vm_compute | by vm_compute | reflexivity | by right].
Defined.

(** X3. When the call to the upstream fails for an address that is not
    blank, a bad-request error is passed on as it is, and every other
    failure becomes an internal-server error "Geocoding service failed: "
    followed by the message of the failure, or by "Unknown error" when what
    was thrown is not an [Error]. *)
Theorem geocodeAddress_upstream_failure (env : Env) (address : list N)
    (w : World) (error : Exn) :
  JS.trim address ≠ [] →
  mapbox_send env
    {| objects := objects w; rows := rows w;
       calls := calls w ++ [CallGeocode address]; wire := wire w |}
    (JS.trim address)
  = Throw error →
  fst (geocodeAddress env address w)
  = Throw (match kind error with
           | BadRequestException => error
           | NotAnError =>
               http InternalServerErrorException
                 (JS.lit "Geocoding service failed: Unknown error")
           | _ =>
               http InternalServerErrorException
                 (JS.lit "Geocoding service failed: "
                  ++ JS.template (message error))
           end).
Proof.
  intros Hnb Hup. rewrite geocodeAddress_run, Hup by done.
  unfold instanceof_BadRequestException, instanceof_Error.
  by destruct (kind error).
Qed.

Lemma geocodeAddress_upstream_failure_witness :
  fst (geocodeAddress offline_geocoder_env (JS.lit "Paris") empty_world)
  = Throw (http InternalServerErrorException
             (JS.lit "Geocoding service failed: ENOTFOUND")).
Proof.
  rewrite (geocodeAddress_upstream_failure offline_geocoder_env
             (JS.lit "Paris") empty_world
             {| kind := OtherError; message := Some (JS.lit "ENOTFOUND") |});
    [by vm_compute | by vm_compute | reflexivity].
Defined.

(** X4. Whatever the address and the upstream, [geocodeAddress] throws
    nothing but bad-request and internal-server errors, asks the upstream
    at most once (there is no retry), and leaves the store and the table
    alone. *)
Theorem geocodeAddress_contained (env : Env) (address : list N) (w : World) :
  (∀ error, fst (geocodeAddress env address w) = Throw error →
            kind error = BadRequestException
            ∨ kind error = InternalServerErrorException)
  ∧ (wire (snd (geocodeAddress env address w)) = wire w
     ∨ wire (snd (geocodeAddress env address w))
       = wire w ++ [ForwardGeocode (JS.trim address)])
  ∧ objects (snd (geocodeAddress env address w)) = objects w
  ∧ rows (snd (geocodeAddress env address w)) = rows w.
Proof.
  split; [|split; [|split]].
  - destruct (decide (JS.trim address = [])) as [Hb|Hnb].
    + unfold geocodeAddress, bind at 1, log_call.
      assert (negb (JS.truthy address)
              || (length (JS.trim address) =? 0)%nat = true) as ->.
      { rewrite Hb. apply orb_true_r. }
      intros error [= <-]. by left.
    + rewrite geocodeAddress_run by done. cbv zeta.
      destruct (mapbox_send env _ _) as [[[[|feature rest]|]]|e];
        cbn [GeocodeResponse.features fst]; intros error [= <-];
        try (by left).
      unfold instanceof_BadRequestException.
      destruct (kind e) eqn:Hk; try (by right). left. exact Hk.
  - destruct (decide (JS.trim address = [])) as [Hb|Hnb].
    + left. unfold geocodeAddress, bind at 1, log_call.
      assert (negb (JS.truthy address)
              || (length (JS.trim address) =? 0)%nat = true) as ->.
      { rewrite Hb. apply orb_true_r. }
      reflexivity.
    + right. rewrite geocodeAddress_run by done. cbv zeta.
      by destruct (mapbox_send env _ _) as [[[[|feature rest]|]]|e].
  - apply geocodeAddress_objects.
  - apply geocodeAddress_rows.
Qed.

Lemma geocodeAddress_contained_witness :
  kind (http InternalServerErrorException
          (JS.lit "Geocoding service failed: ENOTFOUND"))
  = BadRequestException
  ∨ kind (http InternalServerErrorException
            (JS.lit "Geocoding service failed: ENOTFOUND"))
    = InternalServerErrorException.
Proof.
  apply (proj1 (geocodeAddress_contained offline_geocoder_env (JS.lit "Paris")
                  empty_world)).
  by vm_compute.
Defined.

(** ** MinioService: upload *)

(** X5. A payload of a size within the limit whose content type is not on
    the allow-list is refused before the store is reached: the error is a
    bad request that names the type and lists the six allowed ones (among
    them [image/jpg]), nothing goes on the wire and nothing is stored. *)
Theorem uploadFile_unsupported_type (env : Env) (file : File.t)
    (bucketType : BucketType) (w : World) :
  (File.size file ≤ 12 * 1024 * 1024)%Z →
  File.size file ≠ 0%Z →
  File.mimetype file ∉ allowedTypes →
  uploadFile env (Some file) bucketType w
  = (Throw (http BadRequestException
              (JS.lit "Erro no upload: Tipo de arquivo não permitido: "
               ++ File.mimetype file
               ++ JS.lit ". Tipos permitidos: image/jpeg, image/jpg, image/png, image/gif, image/webp, image/svg+xml")),
     {| objects := objects w; rows := rows w;
        calls := calls w ++ [CallUpload (Some file) bucketType];
        wire := wire w |}).
Proof.
  intros Hmax Hzero Hty.
  assert (validateFile file
          = Throw (http BadRequestException
              (JS.lit "Tipo de arquivo não permitido: " ++ File.mimetype file
               ++ JS.lit ". Tipos permitidos: image/jpeg, image/jpg, image/png, image/gif, image/webp, image/svg+xml")))
    as Hv.
  { unfold validateFile, maxSize.
    destruct (Z.gtb_spec (File.size file) (12 * 1024 * 1024)); [lia|].
    destruct (Z.eqb_spec (File.size file) 0); [done|].
    unfold JS.array_includes. rewrite bool_decide_eq_false_2 by done.
    cbn [negb].
    assert (JS.lit ". Tipos permitidos: " ++ JS.join allowedTypes (JS.lit ", ")
            = JS.lit ". Tipos permitidos: image/jpeg, image/jpg, image/png, image/gif, image/webp, image/svg+xml")
      as -> by by vm_compute.
    reflexivity. }
  unfold uploadFile, bind, try_catch, log_call, of_result, throw.
  rewrite Hv. cbn [message http JS.template].
  assert (∀ rest : list N,
            JS.lit "Erro no upload: "
            ++ JS.lit "Tipo de arquivo não permitido: " ++ rest
            = JS.lit "Erro no upload: Tipo de arquivo não permitido: " ++ rest)
    as -> by (intros rest; by vm_compute).
  reflexivity.
Qed.

Lemma uploadFile_unsupported_type_witness :
  fst (uploadFile healthy_env (Some leaflet) LOCATIONS empty_world)
  = Throw (http BadRequestException
             (JS.lit "Erro no upload: Tipo de arquivo não permitido: application/pdf. Tipos permitidos: image/jpeg, image/jpg, image/png, image/gif, image/webp, image/svg+xml"))
  ∧ snd (uploadFile healthy_env (Some leaflet) LOCATIONS empty_world)
    = {| objects := ∅; rows := ∅;
         calls := [CallUpload (Some leaflet) LOCATIONS]; wire := [] |}.
Proof.
  rewrite (uploadFile_unsupported_type healthy_env leaflet LOCATIONS
             empty_world);
    [ split; by vm_compute | by vm_compute | done
    | apply (bool_decide_eq_false_1 _); by vm_compute ].
Defined.

(** The body of [uploadFile] for a payload that passed validation. *)
Lemma uploadFile_run (env : Env) (file : File.t) (bucketType : BucketType)
    (w : World) :
  validateFile file = Ok tt →
  let logged :=
    {| objects := objects w; rows := rows w;
       calls := calls w ++ [CallUpload (Some file) bucketType];
       wire := wire w |} in
  let fileName :=
    crypto_randomUUID env logged ++ path_extname env (File.originalname file) in
  let bucketName := BucketType_value bucketType in
  let sent :=
    {| objects := objects w; rows := rows w;
       calls := calls w ++ [CallUpload (Some file) bucketType];
       wire := wire w ++ [RandomUUID] |} in
  uploadFile env (Some file) bucketType w
  = match minio_fault env sent (PutObject bucketName fileName) with
    | Some error =>
        (Throw (http BadRequestException
                  (JS.lit "Erro no upload: " ++ JS.template (message error))),
         {| objects := objects w; rows := rows w;
            calls := calls w ++ [CallUpload (Some file) bucketType];
            wire := wire w ++ [RandomUUID; PutObject bucketName fileName] |})
    | None =>
        (Ok (bucketName ++ JS.lit "/" ++ fileName),
         {| objects :=
              <[(bucketName, fileName) :=
                  {| StoredObject.body := File.buffer file;
                     StoredObject.contentType := File.mimetype file;
                     StoredObject.originalName := File.originalname file |}]>
                (objects w);
            rows := rows w;
            calls := calls w ++ [CallUpload (Some file) bucketType];
            wire := wire w ++ [RandomUUID; PutObject bucketName fileName] |})
    end.
Proof.
  intros Hv. cbv zeta.
  unfold uploadFile, bind, try_catch, log_call, of_result, randomUUID,
    minioClient_putObject, outside, world, log_wire, set_objects, ret, throw,
    bind.
  rewrite Hv. cbn [objects rows calls wire].
  destruct (minio_fault env _ _); cbn [objects rows calls wire];
    by rewrite <- !app_assoc.
Qed.

Lemma run_throw_inv {S A} (e e' : Exn) (s s' : S) :
  (@Throw A e, s) = (Throw e', s') → e' = e ∧ s' = s.
Proof. by intros [= -> ->]. Qed.

Lemma run_ok_inv {S A} (a a' : A) (s s' : S) :
  (Ok a, s) = (Ok a', s') → a' = a ∧ s' = s.
Proof. by intros [= -> ->]. Qed.

(** What a failed upload looks like to the caller. *)
Lemma uploadFile_throw_inv (env : Env) (file : option File.t)
    (bucketType : BucketType) (w w' : World) (error : Exn) :
  uploadFile env file bucketType w = (Throw error, w') →
  kind error = BadRequestException
  ∧ (∃ cause, message error = Some (JS.lit "Erro no upload: " ++ cause))
  ∧ objects w' = objects w
  ∧ rows w' = rows w.
Proof.
  destruct file as [file|].
  - destruct (validateFile file) as [[]|ev] eqn:Hv.
    + rewrite (uploadFile_run env file bucketType w Hv). cbv zeta.
      destruct (minio_fault env _ _) as [e|]; [|done].
      intros [-> ->]%run_throw_inv.
      split; [done|]. split; [|done]. by eexists.
    + unfold uploadFile, bind, try_catch, log_call, of_result, throw.
      rewrite Hv. intros [-> ->]%run_throw_inv.
      split; [done|]. split; [|done]. by eexists.
  - unfold uploadFile, bind, try_catch, log_call, throw.
    intros [-> ->]%run_throw_inv.
    split; [reflexivity|]. split; [|split; reflexivity]. by eexists.
Qed.

(** X6. Every failure of [uploadFile], whatever its origin (no payload,
    validation, the store), reaches the caller as a bad-request error
    whose message is "Erro no upload: " followed by the message of the
    cause; and a failed upload has stored nothing: the store and the table
    are as before. *)
Theorem uploadFile_failure (env : Env) (file : option File.t)
    (bucketType : BucketType) (w w' : World) (error : Exn) :
  uploadFile env file bucketType w = (Throw error, w') →
  kind error = BadRequestException
  ∧ (∃ cause, message error = Some (JS.lit "Erro no upload: " ++ cause))
  ∧ objects w' = objects w
  ∧ rows w' = rows w.
Proof. apply uploadFile_throw_inv. Qed.

Lemma uploadFile_failure_witness :
  kind (http BadRequestException (JS.lit "Erro no upload: socket hang up"))
  = BadRequestException
  ∧ objects (snd (uploadFile store_outage_env (Some (photo 4)) LOCATIONS
                    (tower_world None)))
    = objects (tower_world None).
Proof.
  destruct (uploadFile_failure store_outage_env (Some (photo 4)) LOCATIONS
              (tower_world None)
              (snd (uploadFile store_outage_env (Some (photo 4)) LOCATIONS
                      (tower_world None)))
              (http BadRequestException
                 (JS.lit "Erro no upload: socket hang up")))
    as (Hkind & _ & Hobjects & _); [apply run_eq; by vm_compute|].
  split; [exact Hkind | exact Hobjects].
Defined.

(** X7. A successful upload returns the path [bucket/name] where [name]
    is the fresh UUID followed by the extension of the original file name;
    the payload has passed validation; the store holds under that bucket
    and name the buffer with the content type and the original name, and
    is otherwise as before; the wire shows the UUID draw and one
    [PutObject]. *)
Theorem uploadFile_success (env : Env) (file : File.t)
    (bucketType : BucketType) (w w' : World) (filePath : list N) :
  uploadFile env (Some file) bucketType w = (Ok filePath, w') →
  let fileName :=
    crypto_randomUUID env
      {| objects := objects w; rows := rows w;
         calls := calls w ++ [CallUpload (Some file) bucketType];
         wire := wire w |}
    ++ path_extname env (File.originalname file) in
  validateFile file = Ok tt
  ∧ filePath = BucketType_value bucketType ++ JS.lit "/" ++ fileName
  ∧ objects w'
    = <[(BucketType_value bucketType, fileName) :=
          {| StoredObject.body := File.buffer file;
             StoredObject.contentType := File.mimetype file;
             StoredObject.originalName := File.originalname file |}]>
        (objects w)
  ∧ wire w'
    = wire w ++ [RandomUUID; PutObject (BucketType_value bucketType) fileName]
  ∧ rows w' = rows w.
Proof.
  destruct (validateFile file) as [[]|ev] eqn:Hv.
  - rewrite (uploadFile_run env file bucketType w Hv). cbv zeta.
    destruct (minio_fault env _ _) as [e|]; [done|].
    by intros [= <- <-].
  - unfold uploadFile, bind, try_catch, log_call, of_result, throw.
    by rewrite Hv.
Qed.

Lemma uploadFile_success_witness :
  fst (uploadFile healthy_env (Some (photo 4)) LOCATIONS (tower_world None))
  = Ok (JS.lit "locations/3f2b8c1e-0000-4000-8000-000000000000.png")
  ∧ StoredObject.body <$>
      objects (snd (uploadFile healthy_env (Some (photo 4)) LOCATIONS
                      (tower_world None)))
      !! (JS.lit "locations", JS.lit "3f2b8c1e-0000-4000-8000-000000000000.png")
    = Some [137; 80; 78; 71]
  ∧ StoredObject.body <$>
      objects (snd (uploadFile healthy_env (Some (photo 4)) LOCATIONS
                      (tower_world None)))
      !! (JS.lit "locations", JS.lit "old.png")
    = Some [1; 2; 3].
Proof.
  destruct (uploadFile_success healthy_env (photo 4) LOCATIONS
              (tower_world None)
              (snd (uploadFile healthy_env (Some (photo 4)) LOCATIONS
                      (tower_world None)))
              (JS.lit "locations/3f2b8c1e-0000-4000-8000-000000000000.png"))
    as (_ & _ & Hobjects & _); [apply run_eq; by vm_compute|].
  split; [by vm_compute|]. rewrite Hobjects. split; by vm_compute.
Defined.

(** ** MinioService: paths *)

Lemma split_locations (k : list N) :
  JS.split (JS.lit "locations/" ++ k) (JS.lit "/")
  = JS.lit "locations" :: JS.split k (JS.lit "/").
Proof.
  rewrite JSFacts.split_unfold by done.
  change (JS.lit "locations/" ++ k)
    with (JS.lit "locations" ++ ([] ++ [47]) ++ k).
  change (JS.lit "/") with ([] ++ [47]).
  rewrite JSFacts.cut_first; done.
Qed.

Lemma extract_of_trim (filePath k : list N) :
  JS.trim filePath = JS.lit "locations/" ++ k →
  extractBucketAndFileName filePath = (Some (JS.lit "locations"), Some k).
Proof.
  intros Htrim. unfold extractBucketAndFileName. cbv beta zeta.
  assert (JS.truthy filePath = true) as ->.
  { destruct filePath; [discriminate Htrim | done]. }
  rewrite Htrim, split_locations.
  change (JS.slice1 (JS.lit "locations" :: JS.split k (JS.lit "/")))
    with (JS.split k (JS.lit "/")).
  rewrite JSFacts.join_split by done.
  pose proof (JSFacts.split_nonempty k (JS.lit "/") ltac:(done)) as Hs.
  destruct (JS.split k (JS.lit "/")) as [|x xs]; [done|].
  reflexivity.
Qed.

Lemma extract_inv (filePath b k : list N) :
  extractBucketAndFileName filePath = (Some b, Some k) →
  b = JS.lit "locations" ∧ JS.trim filePath = JS.lit "locations/" ++ k.
Proof.
  intros H. destruct (extract_Some _ _ _ H) as [_ ->]. split; [done|].
  revert H. unfold extractBucketAndFileName. cbv beta zeta.
  destruct (JS.truthy filePath); cbn [negb]; [|done].
  pose proof (JSFacts.join_split (JS.trim filePath) (JS.lit "/") ltac:(done))
    as Hjoin.
  destruct (JS.split (JS.trim filePath) (JS.lit "/")) as [|x [|y rest]];
    [done | done |].
  change (length (x :: y :: rest) <? 2)%nat with false. cbv iota.
  destruct (JS.array_includes _ _); cbn [negb]; [|done].
  change (JS.slice1 (x :: y :: rest)) with (y :: rest).
  change (default [] ((x :: y :: rest) !! 0%nat)) with x.
  intros [= -> <-]. rewrite <- Hjoin.
  rewrite JSFacts.join_cons by done.
  reflexivity.
Qed.

(** X8. [extractBucketAndFileName] accepts exactly the paths that, once
    trimmed, read [locations/] followed by the key, and gives back the
    bucket [locations] and that key, slashes in the key included: nothing
    but the surrounding whitespace is lost.  Every other path (empty, no
    slash, another first segment) gives [null] for both parts. *)
Theorem extractBucketAndFileName_spec (filePath : list N) :
  (∀ b k,
     extractBucketAndFileName filePath = (Some b, Some k)
     ↔ b = JS.lit "locations"
       ∧ JS.trim filePath = JS.lit "locations/" ++ k)
  ∧ ((∀ k, JS.trim filePath ≠ JS.lit "locations/" ++ k) →
     extractBucketAndFileName filePath = (None, None)).
Proof.
  split.
  - intros b k. split; [apply extract_inv|].
    intros [-> Htrim]. by apply extract_of_trim.
  - intros Hno.
    destruct (extractBucketAndFileName filePath) as [[b|] [k|]] eqn:H.
    + destruct (extract_inv _ _ _ H) as [_ Htrim]. by destruct (Hno k).
    + revert H. unfold extractBucketAndFileName. cbv beta zeta.
      by repeat case_match.
    + revert H. unfold extractBucketAndFileName. cbv beta zeta.
      by repeat case_match.
    + done.
Qed.

Lemma extractBucketAndFileName_spec_witness :
  extractBucketAndFileName (JS.lit "  locations/2024/tower.png ")
  = (Some (JS.lit "locations"), Some (JS.lit "2024/tower.png"))
  ∧ extractBucketAndFileName (JS.lit "avatars/tower.png") = (None, None).
Proof.
  split.
  - apply (proj1 (extractBucketAndFileName_spec
             (JS.lit "  locations/2024/tower.png "))).
    split; [reflexivity | by vm_compute].
  - apply (proj2 (extractBucketAndFileName_spec (JS.lit "avatars/tower.png"))).
    intros k. by vm_compute.
Defined.

(** ** MinioService: delete *)

(** The run of [deleteFile] on any other path. *)
Lemma deleteFile_rejected_run (env : Env) (filePath : list N) (w : World) :
  (∀ k, k ≠ [] → JS.trim filePath ≠ JS.lit "locations/" ++ k) →
  deleteFile env filePath w
  = (Throw (http BadRequestException
              (JS.lit "Erro ao deletar: "
               ++ (if JS.truthy filePath
                   then JS.lit "Caminho do arquivo inválido"
                   else JS.lit "Caminho do arquivo não fornecido"))),
     {| objects := objects w; rows := rows w;
        calls := calls w ++ [CallDelete filePath]; wire := wire w |}).
Proof.
  intros Hno. unfold deleteFile, bind at 1, log_call, try_catch, throw.
  destruct (JS.truthy filePath); cbn [negb]; [|done].
  destruct (extractBucketAndFileName filePath) as [[b|] [k|]] eqn:H;
    cbn [JS.truthy_opt negb orb]; try by rewrite ?orb_true_r.
  destruct (extract_inv _ _ _ H) as [-> Htrim].
  destruct k as [|c k]; [done|]. by destruct (Hno (c :: k)).
Qed.

(** X9. [deleteFile] refuses a path that does not name an object of a
    known bucket: the empty path with "Caminho do arquivo não fornecido",
    and every other path that, trimmed, is not [locations/] followed by a
    key that is not empty (no slash, another bucket, nothing after the
    slash) with "Caminho do arquivo inválido".  Both arrive as bad
    requests under "Erro ao deletar: ", and the store is not asked. *)
Theorem deleteFile_rejected (env : Env) (filePath : list N) (w : World) :
  (∀ k, k ≠ [] → JS.trim filePath ≠ JS.lit "locations/" ++ k) →
  deleteFile env filePath w
  = (Throw (http BadRequestException
              (if JS.truthy filePath
               then JS.lit "Erro ao deletar: Caminho do arquivo inválido"
               else JS.lit "Erro ao deletar: Caminho do arquivo não fornecido")),
     {| objects := objects w; rows := rows w;
        calls := calls w ++ [CallDelete filePath]; wire := wire w |}).
Proof.
  intros Hno. rewrite deleteFile_rejected_run by done.
  assert (JS.lit "Erro ao deletar: " ++ JS.lit "Caminho do arquivo inválido"
          = JS.lit "Erro ao deletar: Caminho do arquivo inválido")
    as Hinvalid by by vm_compute.
  assert (JS.lit "Erro ao deletar: "
          ++ JS.lit "Caminho do arquivo não fornecido"
          = JS.lit "Erro ao deletar: Caminho do arquivo não fornecido")
    as Hempty by by vm_compute.
  destruct (JS.truthy filePath); [by rewrite Hinvalid | by rewrite Hempty].
Qed.

Lemma deleteFile_rejected_witness :
  fst (deleteFile healthy_env (JS.lit "avatars/old.png") (tower_world None))
  = Throw (http BadRequestException
             (JS.lit "Erro ao deletar: Caminho do arquivo inválido"))
  ∧ fst (deleteFile healthy_env (JS.lit "locations/ ") (tower_world None))
    = Throw (http BadRequestException
               (JS.lit "Erro ao deletar: Caminho do arquivo inválido"))
  ∧ fst (deleteFile healthy_env [] (tower_world None))
    = Throw (http BadRequestException
               (JS.lit "Erro ao deletar: Caminho do arquivo não fornecido")).
Proof.
  split; [|split].
  - rewrite (deleteFile_rejected healthy_env (JS.lit "avatars/old.png")
               (tower_world None)); [reflexivity|].
    intros k _. by vm_compute.
  - rewrite (deleteFile_rejected healthy_env (JS.lit "locations/ ")
               (tower_world None)); [reflexivity|].
    intros [|c k] Hk; [done | by vm_compute].
  - rewrite (deleteFile_rejected healthy_env [] (tower_world None));
      [reflexivity|].
    intros k _. by vm_compute.
Defined.

(** X10. Deleting an object that is in the store, when the store answers:
    after one existence check and one removal the object is gone and every
    other object is where it was; deleting the same path again succeeds
    too, with an existence check alone. *)
Theorem deleteFile_removes (env : Env) (filePath b k : list N) (w : World)
    (o : StoredObject.t) :
  extractBucketAndFileName filePath = (Some b, Some k) →
  k ≠ [] →
  objects w !! (b, k) = Some o →
  (∀ w' c, minio_fault env w' c = None) →
  ∃ w1 w2,
    deleteFile env filePath w = (Ok tt, w1)
    ∧ objects w1 = delete (b, k) (objects w)
    ∧ wire w1 = wire w ++ [StatObject b k; RemoveObject b k]
    ∧ deleteFile env filePath w1 = (Ok tt, w2)
    ∧ objects w2 = objects w1
    ∧ wire w2 = wire w1 ++ [StatObject b k].
Proof.
  intros Hpath Hk Ho Hstore. eexists _, _.
  rewrite (deleteFile_run env filePath b k w Hpath Hk). cbv zeta.
  rewrite !Hstore, Ho.
  split; [reflexivity|]. split; [reflexivity|]. split; [reflexivity|].
  rewrite (deleteFile_run env filePath b k _ Hpath Hk). cbv zeta.
  rewrite !Hstore. cbn [objects]. rewrite lookup_delete_eq.
  split; [reflexivity|]. split; reflexivity.
Qed.

Lemma deleteFile_removes_witness :
  fst (deleteFile healthy_env (JS.lit "locations/old.png") (tower_world None))
  = Ok tt
  ∧ objects (snd (deleteFile healthy_env (JS.lit "locations/old.png")
                    (tower_world None)))
    !! (JS.lit "locations", JS.lit "old.png")
    = None.
Proof.
  destruct (deleteFile_removes healthy_env (JS.lit "locations/old.png")
              (JS.lit "locations") (JS.lit "old.png") (tower_world None)
              {| StoredObject.body := [1; 2; 3];
                 StoredObject.contentType := JS.lit "image/png";
                 StoredObject.originalName := JS.lit "old.png" |})
    as (w1 & w2 & Hrun & Hobjects & _);
    [by vm_compute | done | by vm_compute | done |].
  rewrite Hrun. split; [reflexivity|].
  cbn [snd]. rewrite Hobjects. apply lookup_delete_eq.
Defined.

(** X11. [fileExists] takes every failure of [statObject] for "not
    there".  So when the existence check itself fails (the store is
    unreachable, say), [deleteFile] reports success without removing
    anything: an object under that bucket and key stays in the store. *)
Theorem deleteFile_check_failure (env : Env) (filePath b k : list N)
    (w : World) (error : Exn) :
  extractBucketAndFileName filePath = (Some b, Some k) →
  k ≠ [] →
  minio_fault env
    {| objects := objects w; rows := rows w;
       calls := calls w ++ [CallDelete filePath]; wire := wire w |}
    (StatObject b k)
  = Some error →
  deleteFile env filePath w
  = (Ok tt, {| objects := objects w; rows := rows w;
               calls := calls w ++ [CallDelete filePath];
               wire := wire w ++ [StatObject b k] |}).
Proof.
  intros Hpath Hk Hfault.
  rewrite (deleteFile_run env filePath b k w Hpath Hk). cbv zeta.
  by rewrite Hfault.
Qed.

Lemma deleteFile_check_failure_witness :
  fst (deleteFile store_outage_env (JS.lit "locations/old.png")
         (tower_world None))
  = Ok tt
  ∧ is_Some (objects (snd (deleteFile store_outage_env
                             (JS.lit "locations/old.png") (tower_world None)))
             !! (JS.lit "locations", JS.lit "old.png")).
Proof.
  rewrite (deleteFile_check_failure store_outage_env
             (JS.lit "locations/old.png") (JS.lit "locations")
             (JS.lit "old.png") (tower_world None) store_down);
    [|by vm_compute | done | reflexivity].
  split; [reflexivity|]. eexists. by vm_compute.
Defined.

(** X12. Every failure of [deleteFile] reaches the caller as a bad-request
    error under "Erro ao deletar: "; a failed delete has removed nothing;
    and in every run the store afterwards is the store before, or the
    store before without the one object that the path names. *)
Theorem deleteFile_contained (env : Env) (filePath : list N) (w : World) :
  (∀ error, fst (deleteFile env filePath w) = Throw error →
     kind error = BadRequestException
     ∧ (∃ cause, message error = Some (JS.lit "Erro ao deletar: " ++ cause))
     ∧ objects (snd (deleteFile env filePath w)) = objects w)
  ∧ (objects (snd (deleteFile env filePath w)) = objects w
     ∨ ∃ b k, extractBucketAndFileName filePath = (Some b, Some k)
              ∧ objects (snd (deleteFile env filePath w))
                = delete (b, k) (objects w))
  ∧ rows (snd (deleteFile env filePath w)) = rows w.
Proof.
  split; [|split; [|apply deleteFile_rows]].
  - destruct (extractBucketAndFileName filePath) as [[b|] [k|]] eqn:H.
    1: destruct (decide (k = [])) as [->|Hk].
    2: { rewrite (deleteFile_run env filePath b k w H Hk). cbv zeta.
         destruct (minio_fault env _ (StatObject b k)); [done|].
         destruct (objects w !! (b, k)); [|done].
         destruct (minio_fault env _ (RemoveObject b k)); [|done].
         cbn [fst snd]. intros error [= <-].
         split; [done|]. split; [|done]. by eexists. }
    all: rewrite deleteFile_rejected_run;
      [ cbn [fst snd]; intros error [= <-]; split; [done|];
        split; [|done]; by eexists
      | intros k' Hk' Htrim;
        rewrite (extract_of_trim _ _ Htrim) in H; by injection H ].
  - destruct (extractBucketAndFileName filePath) as [[b|] [k|]] eqn:H.
    1: destruct (decide (k = [])) as [->|Hk].
    2: { rewrite (deleteFile_run env filePath b k w H Hk). cbv zeta.
         destruct (minio_fault env _ (StatObject b k)); [by left|].
         destruct (objects w !! (b, k)); [|by left].
         destruct (minio_fault env _ (RemoveObject b k)); [by left|].
         right. by exists b, k. }
    all: left; rewrite deleteFile_rejected_run;
      [ done
      | intros k' Hk' Htrim;
        rewrite (extract_of_trim _ _ Htrim) in H; by injection H ].
Qed.

Lemma deleteFile_contained_witness :
  kind (http BadRequestException (JS.lit "Erro ao deletar: socket hang up"))
  = BadRequestException
  ∧ objects (snd (deleteFile failing_env (JS.lit "locations/old.png")
                    (tower_world None)))
    = objects (tower_world None).
Proof.
  destruct (proj1 (deleteFile_contained failing_env
                     (JS.lit "locations/old.png") (tower_world None))
              (http BadRequestException
                 (JS.lit "Erro ao deletar: socket hang up")))
    as (Hkind & _ & Hobjects); [by vm_compute|].
  split; [exact Hkind | exact Hobjects].
Defined.

(** ** MinioService: URLs and stat *)

(** X13. [getFileUrl] gives the empty string for every path that
    [deleteFile] would refuse, and for every other path the origin, a
    slash and the trimmed path; and every URL it gives that is not empty
    is one that [isMinioPath] takes for a reference of the store. *)
Theorem getFileUrl_spec (env : Env) (filePath : list N) :
  (∀ k, k ≠ [] →
        JS.trim filePath = JS.lit "locations/" ++ k →
        getFileUrl env filePath = origin env ++ JS.lit "/" ++ JS.trim filePath)
  ∧ ((∀ k, k ≠ [] → JS.trim filePath ≠ JS.lit "locations/" ++ k) →
     getFileUrl env filePath = [])
  ∧ (getFileUrl env filePath ≠ [] →
     isMinioPath (getFileUrl env filePath) = true).
Proof.
  assert (∀ k, k ≠ [] →
            JS.trim filePath = JS.lit "locations/" ++ k →
            getFileUrl env filePath
            = origin env ++ JS.lit "/locations/" ++ k) as Hshape.
  { intros k Hk Htrim. unfold getFileUrl.
    assert (JS.truthy filePath = true) as ->.
    { destruct filePath; [discriminate Htrim | done]. }
    rewrite (extract_of_trim _ _ Htrim).
    assert (JS.truthy_opt (Some k) = true) as -> by by destruct k.
    unfold origin. cbv beta zeta.
    change (negb true) with false.
    change (negb (JS.truthy_opt (Some (JS.lit "locations")))) with false.
    cbv iota. simpl orb. cbv iota.
    rewrite <- !app_assoc. reflexivity. }
  assert ((∀ k, k ≠ [] → JS.trim filePath ≠ JS.lit "locations/" ++ k) →
          getFileUrl env filePath = []) as Hempty.
  { intros Hno. unfold getFileUrl.
    destruct (JS.truthy filePath); cbn [negb]; [|done].
    destruct (extractBucketAndFileName filePath) as [[b|] [k|]] eqn:H;
      cbn [JS.truthy_opt negb orb]; try by rewrite ?orb_true_r.
    destruct (extract_inv _ _ _ H) as [-> Htrim].
    destruct k as [|c k]; [done|]. by destruct (Hno (c :: k)). }
  split; [|split; [exact Hempty|]].
  - intros k Hk Htrim. rewrite (Hshape k Hk Htrim), Htrim. reflexivity.
  - intros Hurl.
    destruct (extractBucketAndFileName filePath) as [[b|] [k|]] eqn:H.
    1: destruct (decide (k = [])) as [->|Hk].
    2: { destruct (extract_inv _ _ _ H) as [_ Htrim].
         rewrite (Hshape k Hk Htrim). apply PathFacts.isMinioPath_url. }
    all: destruct Hurl; apply Hempty; intros k' Hk' Htrim;
      rewrite (extract_of_trim _ _ Htrim) in H; by injection H.
Qed.

Lemma getFileUrl_spec_witness :
  getFileUrl healthy_env (JS.lit " locations/2024/tower.png ")
  = JS.lit "http://localhost:9000/locations/2024/tower.png"
  ∧ getFileUrl healthy_env (JS.lit "avatars/tower.png") = []
  ∧ isMinioPath (getFileUrl healthy_env (JS.lit " locations/2024/tower.png "))
    = true.
Proof.
  pose proof (getFileUrl_spec healthy_env (JS.lit " locations/2024/tower.png "))
    as (Hshape & _ & Hrecognised).
  pose proof (getFileUrl_spec healthy_env (JS.lit "avatars/tower.png"))
    as (_ & Hempty & _).
  split; [|split].
  - rewrite (Hshape (JS.lit "2024/tower.png"));
      [by vm_compute | done | by vm_compute].
  - apply Hempty. intros k _. by vm_compute.
  - apply Hrecognised. by vm_compute.
Defined.



(** ** MinioService: buckets at start-up *)

Lemma initializeBucket_existing_run (fault : Buckets.Store → Buckets.Admin → option Exn)
    (bucketName : list N) (s : Buckets.Store) :
  is_Some (Buckets.buckets s !! bucketName) →
  Buckets.initializeBucket fault bucketName s
  = (Ok tt, {| Buckets.buckets := Buckets.buckets s;
               Buckets.admin :=
                 Buckets.admin s ++ [Buckets.BucketExists bucketName] |}).
Proof.
  intros Hex.
  unfold Buckets.initializeBucket, try_catch, bind,
    Buckets.minioClient_bucketExists, bind, Buckets.admin_call, ret.
  destruct (fault s (Buckets.BucketExists bucketName)); [done|].
  cbn [Buckets.buckets]. by rewrite bool_decide_eq_true_2.
Qed.

Lemma initializeBucket_fresh_run (fault : Buckets.Store → Buckets.Admin → option Exn)
    (bucketName : list N) (s : Buckets.Store) :
  Buckets.buckets s !! bucketName = None →
  let s1 := {| Buckets.buckets := Buckets.buckets s;
               Buckets.admin :=
                 Buckets.admin s ++ [Buckets.BucketExists bucketName] |} in
  let s2 := {| Buckets.buckets := Buckets.buckets s;
               Buckets.admin :=
                 Buckets.admin s
                 ++ [ Buckets.BucketExists bucketName;
                      Buckets.MakeBucket bucketName (JS.lit "us-east-1") ] |} in
  let made := {| Buckets.buckets := <[bucketName := None]> (Buckets.buckets s);
                 Buckets.admin := Buckets.admin s2 |} in
  let s3 := {| Buckets.buckets := <[bucketName := None]> (Buckets.buckets s);
               Buckets.admin :=
                 Buckets.admin s
                 ++ [ Buckets.BucketExists bucketName;
                      Buckets.MakeBucket bucketName (JS.lit "us-east-1");
                      Buckets.SetBucketPolicy bucketName
                        (Buckets.publicRead bucketName) ] |} in
  Buckets.initializeBucket fault bucketName s
  = match fault s (Buckets.BucketExists bucketName) with
    | Some _ => (Ok tt, s1)
    | None =>
        match fault s1 (Buckets.MakeBucket bucketName (JS.lit "us-east-1")) with
        | Some _ => (Ok tt, s2)
        | None =>
            match fault made
                    (Buckets.SetBucketPolicy bucketName
                       (Buckets.publicRead bucketName)) with
            | Some _ => (Ok tt, s3)
            | None =>
                (Ok tt,
                 {| Buckets.buckets :=
                      <[bucketName := Some (Buckets.publicRead bucketName)]>
                        (Buckets.buckets s);
                    Buckets.admin := Buckets.admin s3 |})
            end
        end
    end.
Proof.
  intros Hnone. cbv zeta.
  unfold Buckets.initializeBucket, try_catch, bind,
    Buckets.minioClient_bucketExists, Buckets.minioClient_makeBucket,
    Buckets.minioClient_setBucketPolicy, bind, Buckets.admin_call, ret.
  destruct (fault s (Buckets.BucketExists bucketName)); [done|].
  cbn [Buckets.buckets Buckets.admin]. rewrite Hnone.
  rewrite bool_decide_eq_false_2 by by intros [? ?].
  cbn [negb].
  destruct (fault _ (Buckets.MakeBucket _ _));
    cbn [Buckets.buckets Buckets.admin]; rewrite <- ?app_assoc; [done|].
  rewrite Hnone. cbn [Buckets.buckets Buckets.admin].
  destruct (fault _ (Buckets.SetBucketPolicy _ _));
    cbn [Buckets.buckets Buckets.admin]; rewrite <- ?app_assoc; [done|].
  rewrite lookup_insert_eq. cbn [Buckets.buckets Buckets.admin].
  by rewrite insert_insert_eq.
Qed.

(** X15. Start-up never fails on the buckets: whatever the store does
    (every call may fail), [initializeBucket] and [onModuleInit] return
    normally. *)
Theorem onModuleInit_never_throws
    (fault : Buckets.Store → Buckets.Admin → option Exn)
    (bucketName : list N) (s : Buckets.Store) :
  fst (Buckets.initializeBucket fault bucketName s) = Ok tt
  ∧ fst (Buckets.onModuleInit fault s) = Ok tt.
Proof.
  assert (∀ b s', fst (Buckets.initializeBucket fault b s') = Ok tt) as Hone.
  { intros b s'. unfold Buckets.initializeBucket, try_catch.
    by destruct (bind _ _ s') as [[[]|e] s'']. }
  split; [apply Hone|].
  unfold Buckets.onModuleInit, Buckets.initializeBuckets. cbv zeta.
  unfold BucketType_values. cbn [Buckets.for_each]. unfold bind.
  specialize (Hone (BucketType_value LOCATIONS) s).
  destruct (Buckets.initializeBucket fault _ s) as [r s']. cbn [fst] in Hone.
  by rewrite Hone.
Qed.

(** X16. On a store without the bucket that answers every call, start-up
    asks whether the bucket exists, makes it in [us-east-1] and attaches
    the policy that allows anyone [s3:GetObject] on its objects, in this
    order; a second start-up then finds the bucket, makes the one
    existence call and changes nothing. *)
Theorem initializeBucket_provisions
    (fault : Buckets.Store → Buckets.Admin → option Exn)
    (bucketName : list N) (s : Buckets.Store) :
  Buckets.buckets s !! bucketName = None →
  (∀ s' c, fault s' c = None) →
  let s1 := snd (Buckets.initializeBucket fault bucketName s) in
  Buckets.buckets s1
  = <[bucketName :=
        Some {| Buckets.Version := JS.lit "2012-10-17";
                Buckets.Statements :=
                  [ {| Buckets.Effect := JS.lit "Allow";
                       Buckets.Principal_AWS := [JS.lit "*"];
                       Buckets.Action := [JS.lit "s3:GetObject"];
                       Buckets.Resource :=
                         [JS.lit "arn:aws:s3:::" ++ bucketName
                          ++ JS.lit "/*"] |} ] |}]>
      (Buckets.buckets s)
  ∧ Buckets.admin s1
    = Buckets.admin s
      ++ [ Buckets.BucketExists bucketName;
           Buckets.MakeBucket bucketName (JS.lit "us-east-1");
           Buckets.SetBucketPolicy bucketName (Buckets.publicRead bucketName) ]
  ∧ Buckets.buckets (snd (Buckets.initializeBucket fault bucketName s1))
    = Buckets.buckets s1
  ∧ Buckets.admin (snd (Buckets.initializeBucket fault bucketName s1))
    = Buckets.admin s1 ++ [Buckets.BucketExists bucketName].
Proof.
  intros Hnone Hfault s1. subst s1.
  rewrite (initializeBucket_fresh_run fault bucketName s Hnone). cbv zeta.
  rewrite !Hfault. cbn [snd Buckets.buckets Buckets.admin].
  split; [reflexivity|]. split; [reflexivity|].
  rewrite initializeBucket_existing_run;
    [done | cbn [Buckets.buckets]; rewrite lookup_insert_eq; by eexists].
Qed.

Lemma initializeBucket_provisions_witness :
  Buckets.buckets
    (snd (Buckets.initializeBucket Buckets.no_fault (JS.lit "locations")
            Buckets.no_bucket))
    !! JS.lit "locations"
  = Some (Some (Buckets.publicRead (JS.lit "locations")))
  ∧ Buckets.Resource <$>
      Buckets.Statements (Buckets.publicRead (JS.lit "locations"))
    = [[JS.lit "arn:aws:s3:::locations/*"]].
Proof.
  destruct (initializeBucket_provisions Buckets.no_fault (JS.lit "locations")
              Buckets.no_bucket) as (Hbuckets & _); [done | done |].
  split; [|by vm_compute].
  rewrite Hbuckets. by rewrite lookup_insert_eq.
Defined.

(** X17. A bucket that exists is left as it is, whatever the store does:
    start-up makes the existence call and nothing else.  In particular a
    bucket that has no policy is not given one. *)
Theorem initializeBucket_existing
    (fault : Buckets.Store → Buckets.Admin → option Exn)
    (bucketName : list N) (s : Buckets.Store) :
  is_Some (Buckets.buckets s !! bucketName) →
  Buckets.initializeBucket fault bucketName s
  = (Ok tt, {| Buckets.buckets := Buckets.buckets s;
               Buckets.admin :=
                 Buckets.admin s ++ [Buckets.BucketExists bucketName] |}).
Proof. apply initializeBucket_existing_run. Qed.

Lemma initializeBucket_existing_witness :
  Buckets.buckets
    (snd (Buckets.initializeBucket Buckets.no_fault (JS.lit "locations")
            Buckets.bare_bucket))
    !! JS.lit "locations"
  = Some None.
Proof.
  rewrite (initializeBucket_existing Buckets.no_fault (JS.lit "locations")
             Buckets.bare_bucket); [by vm_compute|].
  eexists. by vm_compute.
Defined.

(** X18. When the bucket is made but attaching the policy fails, start-up
    still returns normally and the bucket stays, without a policy; and no
    later start-up attaches one, whatever the store does then. *)
Theorem initializeBucket_policy_failure
    (fault later : Buckets.Store → Buckets.Admin → option Exn)
    (bucketName : list N) (s : Buckets.Store) (error : Exn) :
  Buckets.buckets s !! bucketName = None →
  (∀ s', fault s' (Buckets.BucketExists bucketName) = None) →
  (∀ s', fault s' (Buckets.MakeBucket bucketName (JS.lit "us-east-1")) = None) →
  (∀ s', fault s' (Buckets.SetBucketPolicy bucketName
                     (Buckets.publicRead bucketName)) = Some error) →
  let s1 := snd (Buckets.initializeBucket fault bucketName s) in
  fst (Buckets.initializeBucket fault bucketName s) = Ok tt
  ∧ Buckets.buckets s1 !! bucketName = Some None
  ∧ Buckets.buckets (snd (Buckets.initializeBucket later bucketName s1))
      !! bucketName
    = Some None.
Proof.
  intros Hnone Hexists Hmake Hpolicy s1. subst s1.
  rewrite (initializeBucket_fresh_run fault bucketName s Hnone). cbv zeta.
  rewrite Hexists, Hmake, Hpolicy. cbn [fst snd Buckets.buckets].
  split; [reflexivity|]. split; [apply lookup_insert_eq|].
  rewrite initializeBucket_existing_run;
    [|cbn [Buckets.buckets]; rewrite lookup_insert_eq; by eexists].
  cbn [snd Buckets.buckets]. apply lookup_insert_eq.
Qed.

Lemma initializeBucket_policy_failure_witness :
  fst (Buckets.initializeBucket Buckets.policy_refused (JS.lit "locations")
         Buckets.no_bucket)
  = Ok tt
  ∧ Buckets.buckets
      (snd (Buckets.initializeBucket Buckets.no_fault (JS.lit "locations")
              (snd (Buckets.initializeBucket Buckets.policy_refused
                      (JS.lit "locations") Buckets.no_bucket))))
      !! JS.lit "locations"
    = Some None.
Proof.
  destruct (initializeBucket_policy_failure Buckets.policy_refused
              Buckets.no_fault (JS.lit "locations") Buckets.no_bucket
              {| kind := OtherError; message := Some (JS.lit "AccessDenied") |})
    as (Hok & _ & Hlater); [done | done | done | done |].
  split; [exact Hok | exact Hlater].
Defined.

(** ** LocationsService: what has not happened when a step fails *)

Lemma prisma_delete_spec (env : Env) (id : list N) (w w' : World)
    (r : Result unit) :
  prisma_location_delete env id w = (r, w') →
  calls w' = calls w ++ [CallPersistDelete id]
  ∧ objects w' = objects w
  ∧ match r with
    | Ok _ => rows w' = delete id (rows w)
    | Throw _ => rows w' = rows w
    end.
Proof.
  unfold prisma_location_delete, prisma_call, bind, world, log_call,
    set_rows, ret, throw. simpl.
  destruct (prisma_fault env w (CallPersistDelete id)); simpl.
  - by intros [= <- <-].
  - destruct (rows w !! id); simpl; by intros [= <- <-].
Qed.

Lemma update_geocode_objects (env : Env) (address : option (list N)) :
  preserves objects (update_geocode env address).
Proof.
  pose proof (geocodeAddress_objects env).
  unfold update_geocode. destruct (JS.truthy_opt address); frame.
Qed.

Lemma findOne_missing_run (env : Env) (id : list N) (w : World) :
  rows w !! id = None →
  prisma_fault env w (CallFindUnique id) = None →
  findOne env id w
  = (Throw (http NotFoundException (JS.lit "Location not found")),
     {| objects := objects w; rows := rows w;
        calls := calls w ++ [CallFindUnique id]; wire := wire w |}).
Proof.
  intros Hnone Hfault.
  unfold findOne, prisma_location_findUnique, prisma_call, bind, world,
    log_call, ret, throw. cbn [objects rows calls wire].
  rewrite Hfault. cbn [objects rows calls wire]. by rewrite Hnone.
Qed.

(** X19. For an identity that the table does not hold, [findOne],
    [update] and [remove] all fail with the not-found error "Location not
    found" after the one lookup: nothing is geocoded, uploaded, written or
    deleted. *)
Theorem missing_location (env : Env) (id : list N)
    (dto : UpdateLocationDto.t) (imageFile : option File.t) (w : World) :
  rows w !! id = None →
  prisma_fault env w (CallFindUnique id) = None →
  let notFound :=
    (@Throw Location.t (http NotFoundException (JS.lit "Location not found")),
     {| objects := objects w; rows := rows w;
        calls := calls w ++ [CallFindUnique id]; wire := wire w |}) in
  findOne env id w = notFound
  ∧ update env id dto imageFile w = notFound
  ∧ remove env id w
    = (Throw (http NotFoundException (JS.lit "Location not found")),
       snd notFound).
Proof.
  intros Hnone Hfault notFound.
  pose proof (findOne_missing_run env id w Hnone Hfault) as Hfind.
  split; [exact Hfind|]. split.
  - unfold update. by rewrite (bind_throw _ _ _ _ _ Hfind).
  - unfold remove. by rewrite (bind_throw _ _ _ _ _ Hfind).
Qed.

Lemma missing_location_witness :
  fst (update healthy_env (JS.lit "loc-404") (patch None (Some false))
         (Some (photo 4)) (tower_world None))
  = Throw (http NotFoundException (JS.lit "Location not found"))
  ∧ calls (snd (remove healthy_env (JS.lit "loc-404") (tower_world None)))
    = [CallFindUnique (JS.lit "loc-404")].
Proof.
  destruct (missing_location healthy_env (JS.lit "loc-404")
              (patch None (Some false)) (Some (photo 4)) (tower_world None))
    as (_ & Hupdate & Hremove); [by vm_compute | reflexivity |].
  rewrite Hupdate, Hremove. split; reflexivity.
Defined.

(** X20. When geocoding the new address fails, [update] fails with that
    error and has done nothing but look the row up and call the geocoder:
    no upload, no write, no delete; the store and the table are as
    before. *)
Theorem update_geocode_failure (env : Env) (id : list N)
    (dto : UpdateLocationDto.t) (imageFile : option File.t)
    (w w0 w1 : World) (existing : Location.t) (error : Exn) :
  findOne env id w = (Ok existing, w0) →
  update_geocode env (UpdateLocationDto.address dto) w0 = (Throw error, w1) →
  update env id dto imageFile w = (Throw error, w1)
  ∧ calls w1
    = calls w
      ++ [ CallFindUnique id;
           CallGeocode (default [] (UpdateLocationDto.address dto)) ]
  ∧ objects w1 = objects w
  ∧ rows w1 = rows w.
Proof.
  intros Hfind Hgeo.
  destruct (findOne_spec _ _ _ _ _ Hfind) as (Hc0 & Ho0 & Hr0 & _).
  pose proof (update_geocode_calls env (UpdateLocationDto.address dto) w0)
    as Hc1.
  pose proof (update_geocode_objects env (UpdateLocationDto.address dto) w0)
    as Ho1.
  pose proof (update_geocode_rows env (UpdateLocationDto.address dto) w0)
    as Hr1.
  rewrite Hgeo in Hc1, Ho1, Hr1. cbn [snd] in *.
  assert (JS.truthy_opt (UpdateLocationDto.address dto) = true) as Ht.
  { revert Hgeo. unfold update_geocode.
    by destruct (JS.truthy_opt (UpdateLocationDto.address dto)). }
  rewrite Ht in Hc1.
  split; [|split; [|split]].
  - unfold update. rewrite (bind_ok _ _ _ _ _ Hfind). cbv zeta.
    unfold with_locals, try_catch, bind, call, assign, locals, ret, throw.
    cbn [fst snd]. rewrite Hgeo. reflexivity.
  - rewrite Hc1, Hc0. by rewrite <- app_assoc.
  - congruence.
  - congruence.
Qed.

Lemma update_geocode_failure_witness :
  fst (update offline_geocoder_env (JS.lit "loc-7")
         (move_to (JS.lit "Atlantis")) (Some (photo 4)) (tower_world None))
  = Throw (http InternalServerErrorException
             (JS.lit "Geocoding service failed: ENOTFOUND"))
  ∧ calls (snd (update offline_geocoder_env (JS.lit "loc-7")
                  (move_to (JS.lit "Atlantis")) (Some (photo 4))
                  (tower_world None)))
    = [CallFindUnique (JS.lit "loc-7"); CallGeocode (JS.lit "Atlantis")].
Proof.
  pose (dto := move_to (JS.lit "Atlantis")).
  pose (w0 := snd (findOne offline_geocoder_env (JS.lit "loc-7")
                     (tower_world None))).
  pose (w1 := snd (update_geocode offline_geocoder_env
                     (UpdateLocationDto.address dto) w0)).
  destruct (update_geocode_failure offline_geocoder_env (JS.lit "loc-7") dto
              (Some (photo 4)) (tower_world None) w0 w1 (tower_row None)
              (http InternalServerErrorException
                 (JS.lit "Geocoding service failed: ENOTFOUND")))
    as (Hrun & Hcalls & _); [apply run_eq; by vm_compute ..|].
  fold dto. rewrite Hrun. split; [reflexivity|].
  cbn [snd]. rewrite Hcalls. by vm_compute.
Defined.

(** X21. When the upload of the new payload fails, [update] fails with the
    upload's error; there is no write and no Delete (nothing was uploaded,
    and the old image is kept); the store and the table are as before. *)
Theorem update_upload_failure (env : Env) (id : list N)
    (dto : UpdateLocationDto.t) (f : File.t) (w w0 w1 w2 : World)
    (existing : Location.t) (coordinates : option (Z * Z)) (error : Exn) :
  findOne env id w = (Ok existing, w0) →
  update_geocode env (UpdateLocationDto.address dto) w0 = (Ok coordinates, w1) →
  uploadFile env (Some f) LOCATIONS w1 = (Throw error, w2) →
  update env id dto (Some f) w = (Throw error, w2)
  ∧ calls w2
    = calls w ++ update_prologue id dto ++ [CallUpload (Some f) LOCATIONS]
  ∧ objects w2 = objects w
  ∧ rows w2 = rows w.
Proof.
  intros Hfind Hgeo Hup.
  destruct (findOne_spec _ _ _ _ _ Hfind) as (_ & Ho0 & Hr0 & _).
  destruct (update_prologue_calls _ _ _ _ _ _ _ _ Hfind Hgeo) as [Hc1 _].
  pose proof (update_geocode_objects env (UpdateLocationDto.address dto) w0)
    as Ho1.
  pose proof (update_geocode_rows env (UpdateLocationDto.address dto) w0)
    as Hr1.
  rewrite Hgeo in Ho1, Hr1. cbn [snd] in *.
  pose proof (uploadFile_calls env (Some f) LOCATIONS w1) as Hc2.
  rewrite Hup in Hc2. cbn [snd] in Hc2.
  destruct (uploadFile_throw_inv _ _ _ _ _ _ Hup) as (_ & _ & Ho2 & Hr2).
  split; [|split; [|split]].
  - unfold update. rewrite (bind_ok _ _ _ _ _ Hfind). cbv zeta.
    unfold with_locals, try_catch, bind, call, assign, locals, ret, throw.
    cbn [fst snd]. rewrite Hgeo. cbn [fst snd]. rewrite Hup. reflexivity.
  - rewrite Hc2, Hc1. by rewrite <- app_assoc.
  - congruence.
  - congruence.
Qed.

Lemma update_upload_failure_witness :
  fst (update healthy_env (JS.lit "loc-7") (patch None None) (Some leaflet)
         (tower_world (Some (JS.lit "http://localhost:9000/locations/old.png"))))
  = Throw (http BadRequestException
             (JS.lit "Erro no upload: Tipo de arquivo não permitido: application/pdf. Tipos permitidos: image/jpeg, image/jpg, image/png, image/gif, image/webp, image/svg+xml"))
  ∧ deletes
      (calls (snd (update healthy_env (JS.lit "loc-7") (patch None None)
                     (Some leaflet)
                     (tower_world
                        (Some (JS.lit "http://localhost:9000/locations/old.png"))))))
    = [].
Proof.
  pose (dto := patch None None).
  pose (w := tower_world
               (Some (JS.lit "http://localhost:9000/locations/old.png"))).
  pose (w0 := snd (findOne healthy_env (JS.lit "loc-7") w)).
  pose (w1 := snd (update_geocode healthy_env
                     (UpdateLocationDto.address dto) w0)).
  pose (w2 := snd (uploadFile healthy_env (Some leaflet) LOCATIONS w1)).
  destruct (update_upload_failure healthy_env (JS.lit "loc-7") dto leaflet
              w w0 w1 w2
              (tower_row
                 (Some (JS.lit "http://localhost:9000/locations/old.png")))
              None
              (http BadRequestException
                 (JS.lit "Erro no upload: Tipo de arquivo não permitido: application/pdf. Tipos permitidos: image/jpeg, image/jpg, image/png, image/gif, image/webp, image/svg+xml")))
    as (Hrun & Hcalls & _); [apply run_eq; by vm_compute ..|].
  fold dto w. rewrite Hrun. split; [reflexivity|].
  cbn [snd]. rewrite Hcalls. by vm_compute.
Defined.

(** X22. When the upload fails, [create] fails with the upload's error
    after the geocoding and the upload attempt: nothing is written to the
    table, no Delete is called, and the store is as before. *)
Theorem create_upload_failure (env : Env) (dto : CreateLocationDto.t)
    (userId : list N) (f : File.t) (w w1 w2 : World)
    (geo : GeocodeResult.t) (error : Exn) :
  geocodeAddress env (CreateLocationDto.address dto) w = (Ok geo, w1) →
  uploadFile env (Some f) LOCATIONS w1 = (Throw error, w2) →
  create env dto userId (Some f) w = (Throw error, w2)
  ∧ calls w2
    = calls w
      ++ [ CallGeocode (CreateLocationDto.address dto);
           CallUpload (Some f) LOCATIONS ]
  ∧ objects w2 = objects w
  ∧ rows w2 = rows w.
Proof.
  intros Hgeo Hup.
  pose proof (geocodeAddress_calls env (CreateLocationDto.address dto) w)
    as Hc1.
  pose proof (geocodeAddress_objects env (CreateLocationDto.address dto) w)
    as Ho1.
  pose proof (geocodeAddress_rows env (CreateLocationDto.address dto) w)
    as Hr1.
  rewrite Hgeo in Hc1, Ho1, Hr1. cbn [snd] in *.
  pose proof (uploadFile_calls env (Some f) LOCATIONS w1) as Hc2.
  rewrite Hup in Hc2. cbn [snd] in Hc2.
  destruct (uploadFile_throw_inv _ _ _ _ _ _ Hup) as (_ & _ & Ho2 & Hr2).
  split; [|split; [|split]].
  - unfold create. cbv zeta. rewrite (bind_ok _ _ _ _ _ Hgeo).
    unfold with_locals, try_catch, bind, call, assign, locals, ret, throw.
    cbn [fst snd]. rewrite Hup. reflexivity.
  - rewrite Hc2, Hc1. by rewrite <- app_assoc.
  - congruence.
  - congruence.
Qed.

Lemma create_upload_failure_witness :
  fst (create store_outage_env (eiffel None) (JS.lit "user-1")
         (Some (photo 4)) empty_world)
  = Throw (http BadRequestException (JS.lit "Erro no upload: socket hang up"))
  ∧ rows (snd (create store_outage_env (eiffel None) (JS.lit "user-1")
                 (Some (photo 4)) empty_world))
    = ∅.
Proof.
  pose (w1 := snd (geocodeAddress store_outage_env
                     (CreateLocationDto.address (eiffel None)) empty_world)).
  pose (w2 := snd (uploadFile store_outage_env (Some (photo 4)) LOCATIONS w1)).
  destruct (create_upload_failure store_outage_env (eiffel None)
              (JS.lit "user-1") (photo 4) empty_world w1 w2
              {| GeocodeResult.latitude := 48858370;
                 GeocodeResult.longitude := 2294481;
                 GeocodeResult.formattedAddress :=
                   Some (JS.lit "Champ de Mars, Paris") |}
              (http BadRequestException
                 (JS.lit "Erro no upload: socket hang up")))
    as (Hrun & _ & _ & Hrows); [apply run_eq; by vm_compute ..|].
  rewrite Hrun. split; [reflexivity | exact Hrows].
Defined.

(** X23. Without a payload, [create] is the geocoding followed by the
    write of the request's own image value (a URL, or none): its outcome
    and the world after it are those of that write, so there is no Upload
    and, also when the write fails, no Delete. *)
Theorem create_without_payload (env : Env) (dto : CreateLocationDto.t)
    (userId : list N) (w w1 : World) (geo : GeocodeResult.t) :
  geocodeAddress env (CreateLocationDto.address dto) w = (Ok geo, w1) →
  create env dto userId None w
  = prisma_location_create env
      (createData dto userId geo (CreateLocationDto.image dto)) w1
  ∧ calls (snd (create env dto userId None w))
    = calls w
      ++ [ CallGeocode (CreateLocationDto.address dto);
           CallPersistCreate
             (createData dto userId geo (CreateLocationDto.image dto)) ].
Proof.
  intros Hgeo.
  assert (create env dto userId None w
          = prisma_location_create env
              (createData dto userId geo (CreateLocationDto.image dto)) w1)
    as Hrun.
  { unfold create. cbv zeta. rewrite (bind_ok _ _ _ _ _ Hgeo).
    unfold with_locals, try_catch, bind, call, assign, locals, ret, throw.
    cbn [fst snd CreateLocals.imageUrl CreateLocals.uploadedFilePath
         JS.truthy_opt]. unfold createData.
    by destruct (prisma_location_create env _ w1) as [[location|e] w2]. }
  split; [exact Hrun|]. rewrite Hrun.
  pose proof (geocodeAddress_calls env (CreateLocationDto.address dto) w)
    as Hc1. rewrite Hgeo in Hc1. cbn [snd] in Hc1.
  destruct (prisma_location_create env _ w1) as [r w2] eqn:Hdb.
  destruct (prisma_create_spec _ _ _ _ _ Hdb) as (Hc2 & _).
  cbn [snd]. rewrite Hc2, Hc1. by rewrite <- app_assoc.
Qed.

Lemma create_without_payload_witness :
  Location.image <$>
    fst (create healthy_env
           (eiffel (Some (JS.lit "https://example.com/image.jpg")))
           (JS.lit "user-1") None empty_world)
  = Ok (Some (JS.lit "https://example.com/image.jpg"))
  ∧ fst (create failing_env (eiffel None) (JS.lit "user-1") None empty_world)
    = Throw db_down.
Proof.
  pose (geo := {| GeocodeResult.latitude := 48858370%Z;
                  GeocodeResult.longitude := 2294481%Z;
                  GeocodeResult.formattedAddress :=
                    Some (JS.lit "Champ de Mars, Paris") |}).
  split.
  - pose (dto := eiffel (Some (JS.lit "https://example.com/image.jpg"))).
    pose (w1 := snd (geocodeAddress healthy_env
                       (CreateLocationDto.address dto) empty_world)).
    fold dto.
    rewrite (proj1 (create_without_payload healthy_env dto (JS.lit "user-1")
                      empty_world w1 geo ltac:(apply run_eq; by vm_compute))).
    by vm_compute.
  - pose (w1 := snd (geocodeAddress failing_env
                       (CreateLocationDto.address (eiffel None)) empty_world)).
    rewrite (proj1 (create_without_payload failing_env (eiffel None)
                      (JS.lit "user-1") empty_world w1 geo
                      ltac:(apply run_eq; by vm_compute))).
    by vm_compute.
Defined.

(** X24. Without a payload and unless [keepImage] is exactly [false],
    [update] is the lookup, the geocoding if any, and the write of the
    request's own fields: its outcome and the world after it are those of
    that write.  No Delete is called, whatever image the row has, and when
    the request has no image field the row that comes back has the image
    it had. *)
Theorem update_keeps_image (env : Env) (id : list N)
    (dto : UpdateLocationDto.t) (w w0 w1 : World) (existing : Location.t)
    (coordinates : option (Z * Z)) :
  UpdateLocationDto.keepImage dto ≠ Some false →
  findOne env id w = (Ok existing, w0) →
  update_geocode env (UpdateLocationDto.address dto) w0 = (Ok coordinates, w1) →
  update env id dto None w
  = prisma_location_update env id (patchData dto coordinates None) w1
  ∧ (∀ location w2,
       prisma_location_update env id (patchData dto coordinates None) w1
       = (Ok location, w2) →
       UpdateLocationDto.image dto = None →
       Location.image location = Location.image existing).
Proof.
  intros Hkeep Hfind Hgeo. split.
  - rewrite (update_after_geocode _ _ _ _ _ _ _ _ Hfind Hgeo). cbv zeta.
    rewrite bool_decide_eq_false_2 by done. cbn [andb].
    by destruct (prisma_location_update env id _ w1) as [[location|e] w2].
  - intros location w2 Hdb Himg.
    destruct (update_prologue_calls _ _ _ _ _ _ _ _ Hfind Hgeo) as [_ Hrow].
    destruct (prisma_update_spec _ _ _ _ _ _ Hdb) as (_ & _ & l & Hl & -> & _).
    rewrite Hrow in Hl. injection Hl as <-.
    unfold apply_update, patchData, updateData.
    cbn [Location.image UpdateData.image UpdateLocals.imageUrl].
    by rewrite Himg.
Qed.

Lemma update_keeps_image_witness :
  Location.image <$>
    fst (update healthy_env (JS.lit "loc-7") (patch None (Some true)) None
           (tower_world
              (Some (JS.lit "http://localhost:9000/locations/old.png"))))
  = Ok (Some (JS.lit "http://localhost:9000/locations/old.png"))
  ∧ deletes
      (calls (snd (update healthy_env (JS.lit "loc-7") (patch None (Some true))
                     None
                     (tower_world
                        (Some (JS.lit "http://localhost:9000/locations/old.png"))))))
    = [].
Proof.
  pose (dto := patch None (Some true)).
  pose (w := tower_world
               (Some (JS.lit "http://localhost:9000/locations/old.png"))).
  pose (w0 := snd (findOne healthy_env (JS.lit "loc-7") w)).
  pose (w1 := snd (update_geocode healthy_env
                     (UpdateLocationDto.address dto) w0)).
  destruct (update_keeps_image healthy_env (JS.lit "loc-7") dto w w0 w1
              (tower_row
                 (Some (JS.lit "http://localhost:9000/locations/old.png")))
              None) as [Hrun _];
    [done | apply run_eq; by vm_compute | apply run_eq; by vm_compute |].
  fold dto w. rewrite Hrun. split; by vm_compute.
Defined.

(** X25. [keepImage = false] without a payload on a row whose image is not
    a reference of the store (an external URL): the write sets the image
    to the empty string, and that is all; no Delete is called. *)
Theorem update_clears_external_image (env : Env) (id : list N)
    (dto : UpdateLocationDto.t) (w w0 w1 : World) (existing : Location.t)
    (coordinates : option (Z * Z)) (img : list N) :
  UpdateLocationDto.keepImage dto = Some false →
  findOne env id w = (Ok existing, w0) →
  Location.image existing = Some img →
  img ≠ [] →
  isMinioPath img = false →
  update_geocode env (UpdateLocationDto.address dto) w0 = (Ok coordinates, w1) →
  update env id dto None w
  = prisma_location_update env id (patchData dto coordinates (Some [])) w1
  ∧ UpdateData.image (patchData dto coordinates (Some [])) = Some [].
Proof.
  intros Hkeep Hfind Himg Hne Hminio Hgeo. split; [|done].
  rewrite (update_after_geocode _ _ _ _ _ _ _ _ Hfind Hgeo). cbv zeta.
  rewrite Hkeep, Himg. cbn [from_option Datatypes.id JS.truthy_opt].
  assert (JS.truthy img = true) as -> by by destruct img.
  rewrite bool_decide_eq_true_2 by done. cbn [andb].
  rewrite Hminio.
  by destruct (prisma_location_update env id _ w1) as [[location|e] w2].
Qed.

Lemma update_clears_external_image_witness :
  Location.image <$>
    fst (update healthy_env (JS.lit "loc-7") (patch None (Some false)) None
           (tower_world (Some (JS.lit "https://example.com/image.jpg"))))
  = Ok (Some [])
  ∧ deletes
      (calls (snd (update healthy_env (JS.lit "loc-7")
                     (patch None (Some false)) None
                     (tower_world
                        (Some (JS.lit "https://example.com/image.jpg"))))))
    = [].
Proof.
  pose (dto := patch None (Some false)).
  pose (w := tower_world (Some (JS.lit "https://example.com/image.jpg"))).
  pose (w0 := snd (findOne healthy_env (JS.lit "loc-7") w)).
  pose (w1 := snd (update_geocode healthy_env
                     (UpdateLocationDto.address dto) w0)).
  destruct (update_clears_external_image healthy_env (JS.lit "loc-7") dto
              w w0 w1
              (tower_row (Some (JS.lit "https://example.com/image.jpg")))
              None (JS.lit "https://example.com/image.jpg")) as [Hrun _];
    [ reflexivity | apply run_eq; by vm_compute | reflexivity | done
    | by vm_compute | apply run_eq; by vm_compute | ].
  fold dto w. rewrite Hrun. split; by vm_compute.
Defined.

(** X26. Without a payload, when the write to the table fails, [update]
    fails with that error and calls no Delete, also when the request asked
    to drop an image of the store: the old blob is deleted only after the
    write has gone through. *)
Theorem update_write_failure_keeps_blob (env : Env) (id : list N)
    (dto : UpdateLocationDto.t) (w w0 w1 w2 : World) (existing : Location.t)
    (coordinates : option (Z * Z)) (error : Exn) :
  findOne env id w = (Ok existing, w0) →
  update_geocode env (UpdateLocationDto.address dto) w0 = (Ok coordinates, w1) →
  prisma_location_update env id
    (patchData dto coordinates
       (if bool_decide (UpdateLocationDto.keepImage dto = Some false)
           && JS.truthy_opt (Location.image existing)
        then Some [] else None)) w1
  = (Throw error, w2) →
  update env id dto None w = (Throw error, w2)
  ∧ deletes (calls w2) = deletes (calls w)
  ∧ objects w2 = objects w
  ∧ rows w2 = rows w.
Proof.
  intros Hfind Hgeo Hdb.
  destruct (findOne_spec _ _ _ _ _ Hfind) as (_ & Ho0 & Hr0 & _).
  destruct (update_prologue_calls _ _ _ _ _ _ _ _ Hfind Hgeo) as [Hc1 _].
  pose proof (update_geocode_objects env (UpdateLocationDto.address dto) w0)
    as Ho1.
  pose proof (update_geocode_rows env (UpdateLocationDto.address dto) w0)
    as Hr1.
  rewrite Hgeo in Ho1, Hr1. cbn [snd] in *.
  destruct (prisma_update_spec _ _ _ _ _ _ Hdb) as (Hc2 & Ho2 & Hr2).
  split; [|split; [|split]].
  - rewrite (update_after_geocode _ _ _ _ _ _ _ _ Hfind Hgeo). cbv zeta.
    by rewrite Hdb.
  - rewrite Hc2, Hc1, !deletes_app, deletes_update_prologue.
    cbn. by rewrite !app_nil_r.
  - congruence.
  - congruence.
Qed.

Lemma update_write_failure_keeps_blob_witness :
  fst (update failing_env (JS.lit "loc-7") (patch None (Some false)) None
         (tower_world (Some (JS.lit "http://localhost:9000/locations/old.png"))))
  = Throw db_down
  ∧ deletes
      (calls (snd (update failing_env (JS.lit "loc-7")
                     (patch None (Some false)) None
                     (tower_world
                        (Some (JS.lit "http://localhost:9000/locations/old.png"))))))
    = [].
Proof.
  pose (dto := patch None (Some false)).
  pose (img := JS.lit "http://localhost:9000/locations/old.png").
  pose (w := tower_world (Some img)).
  pose (w0 := snd (findOne failing_env (JS.lit "loc-7") w)).
  pose (w1 := snd (update_geocode failing_env
                     (UpdateLocationDto.address dto) w0)).
  pose (w2 := snd (prisma_location_update failing_env (JS.lit "loc-7")
                     (patchData dto None (Some [])) w1)).
  destruct (update_write_failure_keeps_blob failing_env (JS.lit "loc-7") dto
              w w0 w1 w2 (tower_row (Some img)) None db_down)
    as (Hrun & Hdeletes & _); [apply run_eq; by vm_compute ..|].
  fold img w dto. rewrite Hrun. split; [reflexivity|].
  cbn [snd]. rewrite Hdeletes. by vm_compute.
Defined.

(** ** LocationsService.remove *)

(** [remove] once the row is found. *)
Lemma remove_run (env : Env) (id : list N) (w w0 : World)
    (location : Location.t) :
  findOne env id w = (Ok location, w0) →
  remove env id w
  = match prisma_location_delete env id w0 with
    | (Ok _, w1) =>
        (Ok tt,
         if JS.truthy_opt (Location.image location)
            && isMinioPath (default [] (Location.image location))
         then snd (deleteFile env
                     (extractMinioPath (default [] (Location.image location)))
                     w1)
         else w1)
    | (Throw e, w1) => (Throw e, w1)
    end.
Proof.
  intros Hfind. unfold remove. rewrite (bind_ok _ _ _ _ _ Hfind).
  unfold bind at 1.
  destruct (prisma_location_delete env id w0) as [[[]|e] w1]; [|done].
  unfold bind.
  destruct (JS.truthy_opt (Location.image location)
            && isMinioPath (default [] (Location.image location)));
    [|done].
  by rewrite catch_and_log_ok.
Qed.

(** X27. Once the row is deleted from the table, [remove] succeeds,
    whatever happens to the blob: the row is gone; when its image was a
    reference of the store exactly one Delete follows, for the path read
    off the image, and its outcome is not part of the result; otherwise no
    Delete is called. *)
Theorem remove_succeeds (env : Env) (id : list N) (w w0 w1 : World)
    (location : Location.t) :
  findOne env id w = (Ok location, w0) →
  prisma_location_delete env id w0 = (Ok tt, w1) →
  let cleanup :=
    if JS.truthy_opt (Location.image location)
       && isMinioPath (default [] (Location.image location))
    then [extractMinioPath (default [] (Location.image location))]
    else [] in
  fst (remove env id w) = Ok tt
  ∧ rows (snd (remove env id w)) !! id = None
  ∧ calls (snd (remove env id w))
    = calls w ++ [CallFindUnique id; CallPersistDelete id]
      ++ (CallDelete <$> cleanup)
  ∧ deletes (calls (snd (remove env id w))) = deletes (calls w) ++ cleanup.
Proof.
  intros Hfind Hdb cleanup. subst cleanup.
  destruct (findOne_spec _ _ _ _ _ Hfind) as (Hc0 & _ & Hr0 & _).
  destruct (prisma_delete_spec _ _ _ _ _ Hdb) as (Hc1 & _ & Hr1).
  rewrite (remove_run env id w w0 location Hfind), Hdb.
  destruct (JS.truthy_opt (Location.image location)
            && isMinioPath (default [] (Location.image location)));
    cbn [fst snd fmap list_fmap].
  - split; [done|]. split; [|split].
    + rewrite deleteFile_rows, Hr1. apply lookup_delete_eq.
    + rewrite deleteFile_calls, Hc1, Hc0. by rewrite <- !app_assoc.
    + rewrite deleteFile_calls, Hc1, Hc0, !deletes_app. cbn.
      by rewrite !app_nil_r.
  - split; [done|]. split; [|split].
    + rewrite Hr1. apply lookup_delete_eq.
    + rewrite Hc1, Hc0. by rewrite <- !app_assoc, app_nil_r.
    + rewrite Hc1, Hc0, !deletes_app. cbn. by rewrite !app_nil_r.
Qed.

Lemma remove_succeeds_witness :
  fst (remove sticky_store_env (JS.lit "loc-7")
         (tower_world (Some (JS.lit "http://localhost:9000/locations/old.png"))))
  = Ok tt
  ∧ deletes
      (calls (snd (remove sticky_store_env (JS.lit "loc-7")
                     (tower_world
                        (Some (JS.lit "http://localhost:9000/locations/old.png"))))))
    = [JS.lit "locations/old.png"]
  ∧ fst (deleteFile sticky_store_env (JS.lit "locations/old.png")
           (tower_world None))
    = Throw (http BadRequestException
               (JS.lit "Erro ao deletar: socket hang up")).
Proof.
  pose (img := JS.lit "http://localhost:9000/locations/old.png").
  pose (w := tower_world (Some img)).
  pose (w0 := snd (findOne sticky_store_env (JS.lit "loc-7") w)).
  pose (w1 := snd (prisma_location_delete sticky_store_env (JS.lit "loc-7") w0)).
  destruct (remove_succeeds sticky_store_env (JS.lit "loc-7") w w0 w1
              (tower_row (Some img)))
    as (Hok & _ & _ & Hdeletes); [apply run_eq; by vm_compute ..|].
  fold img w. split; [exact Hok|]. split; [|by vm_compute].
  rewrite Hdeletes. by vm_compute.
Defined.

(** X28. When deleting the row fails, [remove] fails with that error and
    calls no Delete: the row and its blob both stay. *)
Theorem remove_write_failure (env : Env) (id : list N) (w w0 w1 : World)
    (location : Location.t) (error : Exn) :
  findOne env id w = (Ok location, w0) →
  prisma_location_delete env id w0 = (Throw error, w1) →
  remove env id w = (Throw error, w1)
  ∧ calls w1 = calls w ++ [CallFindUnique id; CallPersistDelete id]
  ∧ objects w1 = objects w
  ∧ rows w1 = rows w.
Proof.
  intros Hfind Hdb.
  destruct (findOne_spec _ _ _ _ _ Hfind) as (Hc0 & Ho0 & Hr0 & _).
  destruct (prisma_delete_spec _ _ _ _ _ Hdb) as (Hc1 & Ho1 & Hr1).
  split; [|split; [|split]].
  - by rewrite (remove_run env id w w0 location Hfind), Hdb.
  - rewrite Hc1, Hc0. by rewrite <- app_assoc.
  - congruence.
  - congruence.
Qed.

Lemma remove_write_failure_witness :
  fst (remove no_delete_env (JS.lit "loc-7")
         (tower_world (Some (JS.lit "http://localhost:9000/locations/old.png"))))
  = Throw db_down
  ∧ objects (snd (remove no_delete_env (JS.lit "loc-7")
                    (tower_world
                       (Some (JS.lit "http://localhost:9000/locations/old.png")))))
    = objects (tower_world
                 (Some (JS.lit "http://localhost:9000/locations/old.png"))).
Proof.
  pose (img := JS.lit "http://localhost:9000/locations/old.png").
  pose (w := tower_world (Some img)).
  pose (w0 := snd (findOne no_delete_env (JS.lit "loc-7") w)).
  pose (w1 := snd (prisma_location_delete no_delete_env (JS.lit "loc-7") w0)).
  destruct (remove_write_failure no_delete_env (JS.lit "loc-7") w w0 w1
              (tower_row (Some img)) db_down)
    as (Hrun & _ & Hobjects & _); [apply run_eq; by vm_compute ..|].
  fold img w. rewrite Hrun. split; [reflexivity | exact Hobjects].
Defined.


